(** * ScamShield: the fingerprint pipeline, the forward detector, the verdict
      and the on-chain ledger

    A shallow embedding of
    - [frontend/app/page.tsx]: [normalizeForHash], [sha256], the WhatsApp
      forward detector of [handleAnalyze], [ResultCard]'s verdict and
      [handleStoreOnBlockchain];
    - [frontend/components/LocalHistory.tsx]: the verdict of a history row;
    - [blockchain/contracts/ScamLedger.sol]: the whole contract.

    Texts are sequences of UTF-16 code units restricted to the range
    U+0000..U+00FF (Basic Latin and Latin-1), one [ascii] per code unit; on
    that range [String.prototype.toLowerCase] acts code unit by code unit.
    JavaScript numbers are IEEE 754 binary64 values, Rocq's primitive
    [float]. *)

From Stdlib Require Import String Ascii Bool NArith ZArith Lia List.
From Stdlib Require Import Sorted FinFun.
From Stdlib Require Import Floats.
Import ListNotations.

(** ** JavaScript strings *)

Module JsString.

Definition jsstring := list ascii.

(** A string literal of the source. *)
Definition str (s : string) : jsstring := list_ascii_of_string s.

Definition code (c : ascii) : N := N_of_ascii c.

(** ECMAScript WhiteSpace and LineTerminator code points below U+0100: TAB,
    LF, VT, FF, CR, SPACE and NO-BREAK SPACE.  [trim] strips them and the
    regular expression class [\s] matches exactly them. *)
Definition isWhiteSpace (c : ascii) : bool :=
  let n := code c in
  ((9 <=? n) && (n <=? 13) || (n =? 32) || (n =? 160))%N.

(** Upper-case letters below U+0100: A-Z, and the Latin-1 capitals
    U+00C0..U+00DE without the multiplication sign U+00D7. *)
Definition isUpper (c : ascii) : bool :=
  let n := code c in
  ((65 <=? n) && (n <=? 90)
   || (192 <=? n) && (n <=? 222) && negb (n =? 215))%N.

(** The lower-case mapping of one code unit: capitals move up by 32. *)
Definition toLowerChar (c : ascii) : ascii :=
  if isUpper c then ascii_of_N (code c + 32) else c.

(** [String.prototype.toLowerCase]. *)
Definition toLowerCase (s : jsstring) : jsstring := map toLowerChar s.

(** [String.prototype.trimStart]: drop the leading white space. *)
Fixpoint trimStart (s : jsstring) : jsstring :=
  match s with
  | [] => []
  | c :: s' => if isWhiteSpace c then trimStart s' else s
  end.

(** [String.prototype.trimEnd]: drop the trailing white space. *)
Fixpoint trimEnd (s : jsstring) : jsstring :=
  match s with
  | [] => []
  | c :: s' =>
      match trimEnd s' with
      | [] => if isWhiteSpace c then [] else [c]
      | r => c :: r
      end
  end.

(** [String.prototype.trim]. *)
Definition trim (s : jsstring) : jsstring := trimEnd (trimStart s).

Definition space : ascii := " "%char.
Definition tab : ascii := "009"%char.
Definition newline : ascii := "010"%char.

(** [s.replace(/\s+/g, " ")]: scanning from the left, every maximal run of
    white space is replaced by one space.  [inRun] tells that the code unit
    before the current one belongs to a run whose space is already out. *)
Fixpoint replaceWhiteSpaceRuns (inRun : bool) (s : jsstring) : jsstring :=
  match s with
  | [] => []
  | c :: s' =>
      if isWhiteSpace c
      then if inRun then replaceWhiteSpaceRuns true s'
           else space :: replaceWhiteSpaceRuns true s'
      else c :: replaceWhiteSpaceRuns false s'
  end.

(** [String.prototype.startsWith]. *)
Fixpoint startsWith (s prefix : jsstring) : bool :=
  match prefix, s with
  | [], _ => true
  | _ :: _, [] => false
  | p :: prefix', c :: s' => Ascii.eqb c p && startsWith s' prefix'
  end.

(** [String.prototype.includes]. *)
Fixpoint includes (s sub : jsstring) : bool :=
  startsWith s sub ||
  match s with
  | [] => false
  | _ :: s' => includes s' sub
  end.

(** Strict equality [===] of two strings. *)
Fixpoint strictEq (s t : jsstring) : bool :=
  match s, t with
  | [], [] => true
  | c :: s', d :: t' => Ascii.eqb c d && strictEq s' t'
  | _, _ => false
  end.

(** Truthiness of a string: only the empty string is falsy. *)
Definition truthy (s : jsstring) : bool :=
  match s with [] => false | _ :: _ => true end.

(** [Array.prototype.includes] on an array of strings. *)
Definition arrayIncludes (a : list jsstring) (x : jsstring) : bool :=
  existsb (strictEq x) a.

End JsString.

Import JsString.

(** ** Hash normalization (page.tsx, [normalizeForHash]) *)

Definition normalizeForHash (text : jsstring) : jsstring :=
  replaceWhiteSpaceRuns false (toLowerCase (trim text)).

(** ** SHA-256 (FIPS 180-4), the digest [crypto.subtle.digest] computes *)

Module SHA256.

Local Open Scope N_scope.

Definition mask32 (x : N) : N := x mod 2 ^ 32.
Definition add32 (x y : N) : N := mask32 (x + y).
Definition rotr (n x : N) : N :=
  N.lor (N.shiftr x n) (mask32 (N.shiftl x (32 - n))).
Definition not32 (x : N) : N := N.lxor x (2 ^ 32 - 1).

Definition Ch (x y z : N) : N := N.lxor (N.land x y) (N.land (not32 x) z).
Definition Maj (x y z : N) : N :=
  N.lxor (N.lxor (N.land x y) (N.land x z)) (N.land y z).
Definition bigSigma0 (x : N) : N :=
  N.lxor (N.lxor (rotr 2 x) (rotr 13 x)) (rotr 22 x).
Definition bigSigma1 (x : N) : N :=
  N.lxor (N.lxor (rotr 6 x) (rotr 11 x)) (rotr 25 x).
Definition smallSigma0 (x : N) : N :=
  N.lxor (N.lxor (rotr 7 x) (rotr 18 x)) (N.shiftr x 3).
Definition smallSigma1 (x : N) : N :=
  N.lxor (N.lxor (rotr 17 x) (rotr 19 x)) (N.shiftr x 10).

(** The constants are the first 32 bits of the fractional parts of the
    square roots (initial hash value) and cube roots (round constants) of
    the first primes. *)
Definition isPrime (n : N) : bool :=
  (2 <=? n) &&
  forallb (fun d => negb (n mod N.of_nat d =? 0)) (seq 2 (N.to_nat n - 2)).

Definition primes : list N :=
  Eval vm_compute in filter isPrime (map N.of_nat (seq 2 310)).

(** The integer cube root, one bit at a time from bit [bits - 1] down. *)
Fixpoint cubeRoot (bits : nat) (r n : N) : N :=
  match bits with
  | O => r
  | S b =>
      let c := r + 2 ^ N.of_nat b in
      cubeRoot b (if c * c * c <=? n then c else r) n
  end.

Definition initialHash : list N :=
  Eval vm_compute in
    map (fun p => mask32 (N.sqrt (p * 2 ^ 64))) (firstn 8 primes).

Definition roundConstants : list N :=
  Eval vm_compute in
    map (fun p => mask32 (cubeRoot 36 0 (p * 2 ^ 96))) (firstn 64 primes).

(** Padding: the byte 0x80, zero bytes up to 56 modulo 64, and the length
    of the message in bits as a 64-bit big-endian integer. *)
Fixpoint bigEndian (nbytes : nat) (x : N) : list N :=
  match nbytes with
  | O => []
  | S k => (N.shiftr x (8 * N.of_nat k)) mod 256 :: bigEndian k x
  end.

Definition pad (msg : list N) : list N :=
  let len := N.of_nat (length msg) in
  let zeros := N.to_nat ((119 - len mod 64) mod 64) in
  msg ++ 128 :: repeat 0 zeros ++ bigEndian 8 (8 * len).

(** Big-endian 32-bit words of a byte sequence. *)
Fixpoint toWords (bs : list N) : list N :=
  match bs with
  | b0 :: b1 :: b2 :: b3 :: rest =>
      (b0 * 2 ^ 24 + b1 * 2 ^ 16 + b2 * 2 ^ 8 + b3) :: toWords rest
  | _ => []
  end.

(** The message schedule: [n] more words after the ones in [w]. *)
Fixpoint schedule (n : nat) (w : list N) : list N :=
  match n with
  | O => w
  | S n' =>
      let t := length w in
      let at_ k := nth (t - k) w 0 in
      schedule n'
        (w ++ [add32 (add32 (smallSigma1 (at_ 2%nat)) (at_ 7%nat))
                     (add32 (smallSigma0 (at_ 15%nat)) (at_ 16%nat))])
  end.

Record Regs := { ra : N; rb : N; rc : N; rd : N;
                 re : N; rf : N; rg : N; rh : N }.

Definition round (r : Regs) (kw : N * N) : Regs :=
  let t1 := add32 (add32 (add32 (rh r) (bigSigma1 (re r)))
                         (add32 (Ch (re r) (rf r) (rg r)) (fst kw)))
                  (snd kw) in
  let t2 := add32 (bigSigma0 (ra r)) (Maj (ra r) (rb r) (rc r)) in
  {| ra := add32 t1 t2; rb := ra r; rc := rb r; rd := rc r;
     re := add32 (rd r) t1; rf := re r; rg := rf r; rh := rg r |}.

Definition regsOf (h : list N) : Regs :=
  {| ra := nth 0 h 0; rb := nth 1 h 0; rc := nth 2 h 0; rd := nth 3 h 0;
     re := nth 4 h 0; rf := nth 5 h 0; rg := nth 6 h 0; rh := nth 7 h 0 |}.

Definition ofRegs (r : Regs) : list N :=
  [ra r; rb r; rc r; rd r; re r; rf r; rg r; rh r].

Definition compress (h : list N) (block : list N) : list N :=
  let w := schedule 48 block in
  let r := fold_left round (combine roundConstants w) (regsOf h) in
  map (fun xy => add32 (fst xy) (snd xy)) (combine h (ofRegs r)).

(** The 16-word blocks of a word sequence. *)
Fixpoint blocks (fuel : nat) (ws : list N) : list (list N) :=
  match fuel, ws with
  | S f, _ :: _ => firstn 16 ws :: blocks f (skipn 16 ws)
  | _, _ => []
  end.

(** The 32 bytes of the digest. *)
Definition digest (msg : list N) : list N :=
  let ws := toWords (pad msg) in
  flat_map (bigEndian 4) (fold_left compress (blocks (length ws) ws) initialHash).

End SHA256.

(** ** The SHA-256 utility (page.tsx, [sha256]) *)

(** [new TextEncoder().encode(text)]: UTF-8; a code unit below U+0080 is one
    byte, one below U+0100 is two. *)
Definition utf8Encode (text : jsstring) : list N :=
  flat_map (fun c =>
    let n := code c in
    if (n <? 128)%N then [n]
    else [N.lor 192 (N.shiftr n 6); N.lor 128 (N.land n 63)]) text.

Definition hexDigit (d : N) : ascii :=
  if (d <? 10)%N then ascii_of_N (48 + d) else ascii_of_N (87 + d).

(** [b.toString(16).padStart(2, "0")] for a byte [b]. *)
Definition byteToHex (b : N) : jsstring :=
  [hexDigit (b / 16)%N; hexDigit (b mod 16)%N].

(** The value the promise of [sha256(text)] resolves to. *)
Definition sha256 (text : jsstring) : jsstring :=
  let msgBuffer := utf8Encode text in
  let hashArray := SHA256.digest msgBuffer in
  flat_map byteToHex hashArray.


(** ** JavaScript numbers *)

Set Warnings "-inexact-float".

Module JsNumber.

(** A Number is an IEEE 754 binary64 value. *)
Definition number := float.

(** [x >= y]. *)
Definition ge (x y : number) : bool := (y <=? x)%float.

(** [Math.min(x, y)]: NaN if either is NaN, else the smaller one, with
    [-0] below [+0]. *)
Definition Math_min (x y : number) : number :=
  if is_nan x || is_nan y then nan
  else if (x <? y)%float then x
  else if (y <? x)%float then y
  else match classify x with NZero => x | _ => y end.

(** The integer [n] as a Number; exact for [|n| < 2^53]. *)
Definition ofInteger (n : Z) : number :=
  SF2Prim (binary_normalize prec emax n 0 false).

(** [Math.round(x)]: the integer nearest to [x], a tie going up, that is
    [floor(x + 1/2)] computed exactly; NaN, the infinities and the zeros
    are returned as they are, and a negative [x] that rounds to zero gives
    [-0].  For [x = (-1)^s * m * 2^e] with [e < 0],
    [floor(x + 1/2) = floor((2 * (+-m) + 2^-e) / 2^(1-e))]. *)
Definition Math_round (x : number) : number :=
  match Prim2SF x with
  | S754_finite s m e =>
      if (0 <=? e)%Z then x
      else
        let num := if s then Z.neg m else Z.pos m in
        let n := Z.shiftr (2 * num + 2 ^ (- e)) (1 - e) in
        if (n =? 0)%Z then (if s then neg_zero else zero) else ofInteger n
  | _ => x
  end.

End JsNumber.

Import JsNumber.

(** ** The browser around the page *)

(** The file of an upload; only its name is read by the page. *)
Record File := { name : jsstring }.

(** A request of the page to the backend on port 8000. *)
Inductive Request :=
| AnalyzeImage (file : File)
| AnalyzeUrl (url : jsstring)
| AnalyzeText (message : jsstring)
| StoreScam (message_hash category : jsstring).

(** The three dialogs [handleStoreOnBlockchain] opens with [alert]. *)
Inductive Alert :=
| StorageFailed (detail : jsstring)
| StoredInLedger
| BackendUnreachable.

Module LocalHistory.

(** One row of [localStorage["scamshield_history"]].  [timestamp] is the
    instant in milliseconds; the source stores its ISO 8601 text. *)
Record HistoryItem := {
  timestamp : N;
  message : jsstring;
  category : jsstring;
  probability : number }.

(** LocalHistory.tsx: [const isScam = item.probability >= 0.5]. *)
Definition isScam (item : HistoryItem) : bool :=
  ge (probability item) 0.5%float.

End LocalHistory.

(** What a handler can observe and change outside the React state. *)
Record World := {
  clock : N;                       (* Date: milliseconds since the epoch *)
  entropy : N;                     (* the state behind Math.random *)
  console : list (list jsstring);  (* console.log, one entry per call *)
  alerts : list Alert;
  requests : list Request;         (* fetch calls issued so far *)
  scamshield_history : list LocalHistory.HistoryItem }.

(** An [async] function body: it runs in a world, returns a value and
    leaves a world. *)
Definition Js (A : Type) : Type := World -> A * World.

Definition ret {A} (a : A) : Js A := fun w => (a, w).

Definition bind {A B} (c : Js A) (k : A -> Js B) : Js B :=
  fun w => let (a, w') := c w in k a w'.

Declare Scope js_scope.
Delimit Scope js_scope with js.
Notation "x <- c ;; k" := (bind c (fun x => k))
  (at level 61, c at next level, right associativity) : js_scope.
Notation "c ;; k" := (bind c (fun _ => k))
  (at level 61, right associativity) : js_scope.

Definition console_log (args : list jsstring) : Js unit :=
  fun w => (tt, {| clock := clock w; entropy := entropy w;
                   console := console w ++ [args]; alerts := alerts w;
                   requests := requests w;
                   scamshield_history := scamshield_history w |}).

Definition alert (a : Alert) : Js unit :=
  fun w => (tt, {| clock := clock w; entropy := entropy w;
                   console := console w; alerts := alerts w ++ [a];
                   requests := requests w;
                   scamshield_history := scamshield_history w |}).

(** [fetch]: the request leaves the browser; what comes back is decided
    outside and given to the handler as its [reply]. *)
Definition fetch (r : Request) : Js unit :=
  fun w => (tt, {| clock := clock w; entropy := entropy w;
                   console := console w; alerts := alerts w;
                   requests := requests w ++ [r];
                   scamshield_history := scamshield_history w |}).

Definition Date_now : Js N := fun w => (clock w, w).

(** The history in [localStorage], read and written in a browser whose
    storage is available and holds well-formed rows with finite
    probabilities; the [catch] branch of the page for a failing storage
    is not part of the model. *)
Definition localStorage_getHistory : Js (list LocalHistory.HistoryItem) :=
  fun w => (scamshield_history w, w).

Definition localStorage_setHistory (h : list LocalHistory.HistoryItem)
  : Js unit :=
  fun w => (tt, {| clock := clock w; entropy := entropy w;
                   console := console w; alerts := alerts w;
                   requests := requests w; scamshield_history := h |}).

(** [JSON.stringify] of a string: quoted, with the quote, the backslash and
    the control characters escaped. *)
Definition quote : ascii := ascii_of_N 34.
Definition backslash : ascii := ascii_of_N 92.

Definition jsonEscape (c : ascii) : jsstring :=
  let n := code c in
  if (n =? 34)%N then [backslash; quote] else
  if (n =? 92)%N then [backslash; backslash] else
  if (n =? 8)%N then backslash :: str "b" else
  if (n =? 12)%N then backslash :: str "f" else
  if (n =? 10)%N then backslash :: str "n" else
  if (n =? 13)%N then backslash :: str "r" else
  if (n =? 9)%N then backslash :: str "t" else
  if (n <? 32)%N
  then backslash :: str "u00" ++ [hexDigit (n / 16)%N; hexDigit (n mod 16)%N]
  else [c].

Definition JSON_stringify (s : jsstring) : jsstring :=
  quote :: flat_map jsonEscape s ++ [quote].

(** ** The home page (page.tsx) *)

Inductive Danger := high | medium.

Record HighlightedPhrase := { phrase : jsstring; danger : Danger }.

Record AnalysisResult := {
  probability : number;
  category : jsstring;
  red_flags : list jsstring;
  highlighted_phrases : option (list HighlightedPhrase);
  psychology_explainer : option jsstring;
  advice : jsstring;
  extracted_text : option jsstring }.

(** The body of a successful analysis response as [res.json()] returns it:
    [red_flags] may be missing. *)
Record AnalysisJson := {
  json_probability : number;
  json_category : jsstring;
  json_red_flags : option (list jsstring);
  json_highlighted_phrases : option (list HighlightedPhrase);
  json_psychology_explainer : option jsstring;
  json_advice : jsstring;
  json_extracted_text : option jsstring }.

(** What comes back from an analysis request: [fetch] or [res.json()]
    throws an [Error] with a message, or the response is not [ok] and its
    body may carry a [detail] string, or the response is [ok]. *)
Inductive AnalyzeReply :=
| AnalyzeThrew (errMessage : jsstring)
| AnalyzeRejected (detail : option jsstring)
| AnalyzeAnswered (body : AnalysisJson).

(** What comes back from [/store-scam]: [fetch] rejects, or the response is
    not [ok], or the response is [ok].  The body of a response that is not
    [ok] is not JSON ([None]), or a JSON value without a [detail]
    ([Some None]), or one with a [detail], given as the template literal
    renders it; or it is the JSON value [null], on which reading [detail]
    throws. *)
Inductive StoreReply :=
| StoreUnreachable
| StoreRejected (body : option (option jsstring))
| StoreRejectedNull
| StoreAccepted.

(** The React state of [Home]. *)
Record Home := {
  message : jsstring;
  imageFile : option File;
  imagePreview : option File;
  result : option AnalysisResult;
  loading : bool;
  error : jsstring }.

Definition initialHome : Home :=
  {| message := []; imageFile := None; imagePreview := None;
     result := None; loading := false; error := [] |}.

(** [handleMessageChange]. *)
Definition handleMessageChange (value : jsstring) (st : Home) : Home :=
  {| message := value; imageFile := None; imagePreview := None;
     result := None; loading := loading st; error := error st |}.

(** [handleImageChange], up to the point where the image starts loading. *)
Definition handleImageChange (file : option File) (st : Home) : Home :=
  {| message := []; imageFile := file; imagePreview := file;
     result := None; loading := loading st; error := [] |}.

(** The [img.onload] callback of [handleImageChange]; [qr] is what [jsQR]
    decodes from the image, if anything. *)
Definition imageOnload (qr : option jsstring) (st : Home) : Js Home :=
  match qr with
  | Some data =>
      if truthy data
      then bind (console_log [str "QR Code detected:"; data])
             (fun _ =>
                ret {| message := data; imageFile := None;
                       imagePreview := imagePreview st; result := result st;
                       loading := loading st;
                       error := str "QR Code detected and text extracted automatically." |})
      else ret st
  | None => ret st
  end.

(** The defensive checks of [handleAnalyze]. *)
Definition defensiveChecks (body : AnalysisJson) : AnalysisResult :=
  {| probability := json_probability body;
     category := json_category body;
     red_flags := match json_red_flags body with Some f => f | None => [] end;
     highlighted_phrases :=
       Some match json_highlighted_phrases body with
            | Some p => p
            | None => []
            end;
     psychology_explainer := json_psychology_explainer body;
     advice := json_advice body;
     extracted_text := json_extracted_text body |}.

(** The WhatsApp forward detector of [handleAnalyze]: the flag it looks
    for and the flag it adds are the two literals of the source. *)
Definition flagLookedFor : jsstring :=
  str "Mass-forwarded message pattern detected".
Definition flagAdded : jsstring :=
  str "Mass-forwarded WhatsApp pattern detected".

Definition whatsappForwardDetector (message : jsstring)
    (finalResult : AnalysisResult) : AnalysisResult :=
  if truthy message then
    let lowerMsg := toLowerCase (trim message) in
    if startsWith lowerMsg (str "forwarded")
       || includes lowerMsg (str "forwarded many times")
    then
      if negb (arrayIncludes (red_flags finalResult) flagLookedFor)
      then {| probability :=
                Math_min (probability finalResult + 0.15)%float 0.99%float;
              category := category finalResult;
              red_flags := flagAdded :: red_flags finalResult;
              highlighted_phrases := highlighted_phrases finalResult;
              psychology_explainer := psychology_explainer finalResult;
              advice := advice finalResult;
              extracted_text := extracted_text finalResult |}
      else finalResult
    else finalResult
  else finalResult.

(** The test of the regular expression [^(https?://)] with flag [i]. *)
Definition isUrl (s : jsstring) : bool :=
  startsWith (toLowerCase s) (str "http://")
  || startsWith (toLowerCase s) (str "https://").

Definition isSome {A} (o : option A) : bool :=
  match o with Some _ => true | None => false end.

(** [a || b] on strings. *)
Definition orElse (a b : jsstring) : jsstring := if truthy a then a else b.

Definition fileName (f : option File) : jsstring :=
  match f with Some f => name f | None => [] end.

(** The state after [setResult(r)], [setError(e)] and [setLoading(l)]. *)
Definition withOutcome (st : Home) (r : option AnalysisResult)
    (e : jsstring) (l : bool) : Home :=
  {| message := message st; imageFile := imageFile st;
     imagePreview := imagePreview st; result := r;
     loading := l; error := e |}.

Definition cannotReachBackend : jsstring :=
  str "Cannot reach backend. Make sure FastAPI is running on port 8000.".

(** The [catch] and [finally] blocks of [handleAnalyze] for an [Error]
    with message [errMessage]. *)
Definition afterError (st : Home) (errMessage : jsstring) : Home :=
  if negb (strictEq errMessage (str "Failed to fetch"))
  then withOutcome st None (str "Error: " ++ errMessage) false
  else withOutcome st None cannotReachBackend false.

Local Open Scope js_scope.

(** [handleAnalyze], given what the backend answers. *)
Definition handleAnalyze (reply : AnalyzeReply) (st : Home) : Js Home :=
  if negb (truthy (trim (message st))) && negb (isSome (imageFile st))
  then ret (withOutcome st None
              (str "Paste a message or upload an image first.") (loading st))
  else
    fetch (match imageFile st with
           | Some f => AnalyzeImage f
           | None =>
               if isUrl (trim (message st))
               then AnalyzeUrl (trim (message st))
               else AnalyzeText (message st)
           end) ;;
    match reply with
    | AnalyzeThrew errMessage => ret (afterError st errMessage)
    | AnalyzeRejected detail =>
        ret (afterError st
               match detail with
               | Some d => if truthy d then d
                           else str "Unknown error from server"
               | None => str "Unknown error from server"
               end)
    | AnalyzeAnswered body =>
        let finalResult :=
          whatsappForwardDetector (message st) (defensiveChecks body) in
        now <- Date_now ;;
        history <- localStorage_getHistory ;;
        localStorage_setHistory
          (firstn 5
             ({| LocalHistory.timestamp := now;
                 LocalHistory.message :=
                   orElse (message st)
                     (orElse (fileName (imageFile st)) (str "Image upload"));
                 LocalHistory.category := category finalResult;
                 LocalHistory.probability := probability finalResult |}
              :: history)) ;;
        ret (withOutcome st (Some finalResult) [] false)
    end.

(** The value the promise of [sha256(text)] resolves to, as an [async]
    function of the page. *)
Definition sha256Async (text : jsstring) : Js jsstring := ret (sha256 text).

(** [handleStoreOnBlockchain], given what the backend answers. *)
Definition handleStoreOnBlockchain (reply : StoreReply) (st : Home)
  : Js unit :=
  match result st with
  | None => ret tt
  | Some result =>
      let rawInput :=
        orElse (message st) (orElse (fileName (imageFile st)) (str "image")) in
      let normalized := normalizeForHash rawInput in
      console_log [str "[ScamShield] Hashing normalized input:";
                   JSON_stringify normalized] ;;
      hash <- sha256Async normalized ;;
      console_log [str "[ScamShield] Generated hash:"; hash] ;;
      fetch (StoreScam hash (category result)) ;;
      match reply with
      | StoreUnreachable => alert BackendUnreachable
      | StoreRejectedNull => alert BackendUnreachable
      | StoreRejected body =>
          alert (StorageFailed
                   match body with
                   | None => str "Unknown server error"
                   | Some (Some detail) => detail
                   | Some None => str "undefined"
                   end)
      | StoreAccepted => alert StoredInLedger
      end
  end.

Local Close Scope js_scope.

(** [ResultCard]: the percentage shown and the verdict. *)
Module ResultCard.

Definition pct (result : AnalysisResult) : number :=
  Math_round (probability result * 100)%float.

Definition isScam (result : AnalysisResult) : bool :=
  ge (pct result) 50%float.

End ResultCard.

(** ** The ledger contract (ScamLedger.sol) *)

Module ScamLedger.

Local Open Scope N_scope.

(** [struct ScamEntry]; a [uint256] is an [N]. *)
Record ScamEntry := {
  hash : string;
  category : string;
  timestamp : N }.

(** The storage of the contract: [ScamEntry[] private scams]. *)
Record Storage := { scams : list ScamEntry }.

(** [event ScamAdded]. *)
Inductive Event :=
| ScamAdded (index : N) (hash category : string) (timestamp : N).

(** The block a call is executed in. *)
Record Block := { block_timestamp : N }.

(** How a call ends: it returns with a new storage and the events it
    emitted, or it reverts with a reason string, or it panics with a
    code; in the last two cases the storage stays as it was. *)
Inductive Outcome (A : Type) :=
| Success (value : A) (storage : Storage) (log : list Event)
| Revert (reason : string)
| Panic (code : N).

Arguments Success {A} value storage log.
Arguments Revert {A} reason.
Arguments Panic {A} code.

(** A function body of the contract. *)
Definition Call (A : Type) : Type := Block -> Storage -> Outcome A.

Definition ret {A} (a : A) : Call A := fun _ s => Success a s [].

Definition bind {A B} (c : Call A) (k : A -> Call B) : Call B :=
  fun blk s =>
    match c blk s with
    | Success a s' log =>
        match k a blk s' with
        | Success b s'' log' => Success b s'' (log ++ log')
        | Revert reason => Revert reason
        | Panic code => Panic code
        end
    | Revert reason => Revert reason
    | Panic code => Panic code
    end.

Declare Scope sol_scope.
Delimit Scope sol_scope with sol.
Notation "x <- c ;; k" := (bind c (fun x => k))
  (at level 61, c at next level, right associativity) : sol_scope.
Notation "c ;; k" := (bind c (fun _ => k))
  (at level 61, right associativity) : sol_scope.

(** [block.timestamp]. *)
Definition blockTimestamp : Call N := fun blk s => Success (block_timestamp blk) s [].

(** [scams.length]. *)
Definition scamsLength : Call N :=
  fun _ s => Success (N.of_nat (List.length (scams s))) s [].

(** [scams.push(entry)]. *)
Definition scamsPush (entry : ScamEntry) : Call unit :=
  fun _ s => Success tt {| scams := scams s ++ [entry] |} [].

(** [scams[index]]: an access outside the array panics with code 0x32. *)
Definition scamsAt (index : N) : Call ScamEntry :=
  fun _ s =>
    match nth_error (scams s) (N.to_nat index) with
    | Some entry => Success entry s []
    | None => Panic 50
    end.

(** [a - b] on [uint256]: checked, an underflow panics with code 0x11. *)
Definition checkedSub (a b : N) : Call N :=
  fun _ s => if b <=? a then Success (a - b) s [] else Panic 17.

Definition emit (e : Event) : Call unit := fun _ s => Success tt s [e].

Definition require (cond : bool) (reason : string) : Call unit :=
  fun _ s => if cond then Success tt s [] else Revert reason.

Local Open Scope sol_scope.

(** [function addScamHash(string calldata _hash, string calldata _category)]. *)
Definition addScamHash (_hash _category : string) : Call unit :=
  now <- blockTimestamp ;;
  let entry := {| hash := _hash; category := _category; timestamp := now |} in
  scamsPush entry ;;
  length <- scamsLength ;;
  index <- checkedSub length 1 ;;
  now' <- blockTimestamp ;;
  emit (ScamAdded index _hash _category now').

(** [function getTotalScams() external view returns (uint256)]. *)
Definition getTotalScams : Call N := scamsLength.

(** [function getScamByIndex(uint256 index) external view]. *)
Definition getScamByIndex (index : N) : Call (string * string * N) :=
  length <- scamsLength ;;
  require (index <? length) "Index out of bounds" ;;
  entry <- scamsAt index ;;
  ret (hash entry, category entry, timestamp entry).

Local Close Scope sol_scope.

(** The ledger of a freshly deployed contract. *)
Definition deployed : Storage := {| scams := [] |}.

(** One [addScamHash] transaction: its arguments and its block. *)
Record Append := {
  append_hash : string;
  append_category : string;
  append_block : Block }.

(** A sequence of [addScamHash] transactions, each one successful, run one
    after the other from storage [s]: the final storage and all events in
    order, or [None] as soon as one of them fails. *)
Fixpoint appendAll (txs : list Append) (s : Storage)
  : option (Storage * list Event) :=
  match txs with
  | [] => Some (s, [])
  | tx :: txs' =>
      match addScamHash (append_hash tx) (append_category tx)
                        (append_block tx) s with
      | Success _ s' log =>
          match appendAll txs' s' with
          | Some (s'', log') => Some (s'', log ++ log')
          | None => None
          end
      | _ => None
      end
  end.

(** The number a [ScamAdded] event assigns to its entry. *)
Definition assignedIndex (e : Event) : N :=
  match e with ScamAdded index _ _ _ => index end.

(** What a call returned, if it returned. *)
Definition returned {A} (o : Outcome A) : option A :=
  match o with Success v _ _ => Some v | _ => None end.

(** The storage after a call: a call that fails changes nothing. *)
Definition storageAfter {A} (s : Storage) (o : Outcome A) : Storage :=
  match o with Success _ s' _ => s' | _ => s end.

End ScamLedger.
(** ** Texts that differ only in case or white-space arrangement *)

(** The lower-case partner of a capital. *)
Definition lowerOf (c : ascii) : ascii := ascii_of_N (code c + 32).

(** [CosmeticVariant T1 T2]: [T2] is reached from [T1] by any number of
    cosmetic edits, in either direction: changing the case of one letter,
    adding or removing one leading or trailing white-space code unit,
    lengthening or shortening an interior run of white space by one code
    unit, replacing one white-space code unit by another (a space by a tab
    or a newline). *)
Inductive CosmeticVariant : jsstring -> jsstring -> Prop :=
| cosmetic_refl s : CosmeticVariant s s
| cosmetic_sym s t : CosmeticVariant s t -> CosmeticVariant t s
| cosmetic_trans s t u :
    CosmeticVariant s t -> CosmeticVariant t u -> CosmeticVariant s u
| cosmetic_case s c t :
    isUpper c = true ->
    CosmeticVariant (s ++ c :: t) (s ++ lowerOf c :: t)
| cosmetic_leading w s :
    isWhiteSpace w = true -> CosmeticVariant (w :: s) s
| cosmetic_trailing w s :
    isWhiteSpace w = true -> CosmeticVariant (s ++ [w]) s
| cosmetic_run_length s w w' t :
    isWhiteSpace w = true -> isWhiteSpace w' = true ->
    CosmeticVariant (s ++ w :: t) (s ++ w :: w' :: t)
| cosmetic_run_kind s w w' t :
    isWhiteSpace w = true -> isWhiteSpace w' = true ->
    CosmeticVariant (s ++ w :: t) (s ++ w' :: t).

(** *** The canonical form as one scan

    [canonical] reads a text once: white space before the first word is
    dropped, white space after a word is remembered ([InGap]) and becomes
    one space when the next word starts. *)
Inductive ScanState := AtStart | InWord | InGap.

Definition afterWhiteSpace (st : ScanState) : ScanState :=
  match st with AtStart => AtStart | _ => InGap end.

Fixpoint canonical (st : ScanState) (s : jsstring) : jsstring :=
  match s with
  | [] => []
  | c :: s' =>
      if isWhiteSpace c then canonical (afterWhiteSpace st) s'
      else match st with
           | InGap => space :: c :: canonical InWord s'
           | _ => c :: canonical InWord s'
           end
  end.

Fixpoint scan (st : ScanState) (s : jsstring) : ScanState :=
  match s with
  | [] => st
  | c :: s' => scan (if isWhiteSpace c then afterWhiteSpace st else InWord) s'
  end.


(** ** Vocabulary of the statements *)

(** A probability: a Number [x] with [0 <= x] and [x <= 1]. *)
Definition inUnitInterval (x : number) : Prop :=
  (0 <=? x)%float = true /\ (x <=? 1)%float = true.

(** A binary64 value that is not NaN and whose sign bit is [sx]. *)
Definition hasSign (sx : bool) (f : spec_float) : Prop :=
  match f with
  | S754_zero s | S754_infinity s | S754_finite s _ _ => s = sx
  | S754_nan => False
  end.

(** A text that is empty or consists only of white space. *)
Definition whitespaceOnly (s : jsstring) : bool := forallb isWhiteSpace s.

(** The store path rejected the request before fingerprinting: the run
    from [w] to [w'] logged no normalized input and no hash, and sent
    nothing to the backend. *)
Definition rejectedBeforeFingerprint (w w' : World) : Prop :=
  console w' = console w /\ requests w' = requests w.

(** What [handleStoreOnBlockchain] hashes: the message, or the name of the
    image file when the message is empty, or the literal "image". *)
Definition rawInputOf (st : Home) : jsstring :=
  orElse (message st) (orElse (fileName (imageFile st)) (str "image")).

(** A browser in which nothing has happened yet. *)
Definition freshWorld (clock entropy : N) : World :=
  {| clock := clock; entropy := entropy; console := []; alerts := [];
     requests := []; scamshield_history := [] |}.

(** The rejection of blank input as §7 of the specification words it: for
    a message that is empty or white space only, the store path stops
    before it fingerprints anything. *)
Definition storePathRejectsBlankInput : Prop :=
  forall reply st w,
    whitespaceOnly (message st) = true ->
    rejectedBeforeFingerprint w (snd (handleStoreOnBlockchain reply st w)).

(** *** Vocabulary of the ledger statements *)

Module LedgerSpec.

Import ScamLedger.

(** The entry an [addScamHash] transaction stores. *)
Definition entryOf (tx : Append) : ScamEntry :=
  {| hash := append_hash tx; category := append_category tx;
     timestamp := block_timestamp (append_block tx) |}.

(** The event of the transaction that finds [k] entries in the ledger. *)
Definition eventOf (k : nat) (tx : Append) : Event :=
  ScamAdded (N.of_nat k) (append_hash tx) (append_category tx)
            (block_timestamp (append_block tx)).

Fixpoint eventsFrom (k : nat) (txs : list Append) : list Event :=
  match txs with
  | [] => []
  | tx :: txs' => eventOf k tx :: eventsFrom (S k) txs'
  end.

(** The sequence numbers of §8 of the specification: after [N] appends on
    an empty ledger they are exactly 1, ..., N. *)
Definition sequencesStartAtOne : Prop :=
  forall txs s log,
    appendAll txs deployed = Some (s, log) ->
    forall k, In k (map assignedIndex log)
              <-> (1 <= k /\ k <= N.of_nat (List.length txs))%N.

End LedgerSpec.

(** *** Letter case without restriction *)





(** ** Vocabulary of the further statements *)

(** The shape of a canonical text, read from the left: no capital, no
    white space other than the space, no space at the start, at the end or
    after another space.  [afterSpace] tells that the code unit before the
    current one is a space, or that the text starts here. *)
Fixpoint wellSpaced (afterSpace : bool) (s : jsstring) : bool :=
  match s with
  | [] => negb afterSpace
  | c :: s' =>
      if isWhiteSpace c
      then Ascii.eqb c space && negb afterSpace && wellSpaced true s'
      else negb (isUpper c) && wellSpaced false s'
  end.

Definition canonicalShape (s : jsstring) : bool :=
  match s with
  | [] => true
  | _ :: _ => wellSpaced true s
  end.

(** One of the digits 0-9 or the letters a-f. *)
Definition isLowerHex (c : ascii) : bool :=
  let n := code c in
  ((48 <=? n) && (n <=? 57) || (97 <=? n) && (n <=? 102))%N.

(** What can happen on the home page: the textarea changes, a file is
    chosen (or the choice is cleared), the chosen image finishes loading,
    the analyze button is clicked and the backend answers, the ledger
    button is clicked and the backend answers. *)
Inductive HomeEvent :=
| MessageChanged (value : jsstring)
| ImageChanged (file : option File)
| ImageLoaded (qr : option jsstring)
| AnalyzeClicked (reply : AnalyzeReply)
| StoreClicked (reply : StoreReply).

(** One event, on the React state and the world around it. *)
Definition homeStep (sw : Home * World) (e : HomeEvent) : Home * World :=
  let (st, w) := sw in
  match e with
  | MessageChanged value => (handleMessageChange value st, w)
  | ImageChanged file => (handleImageChange file st, w)
  | ImageLoaded qr => imageOnload qr st w
  | AnalyzeClicked reply => handleAnalyze reply st w
  | StoreClicked reply => (st, snd (handleStoreOnBlockchain reply st w))
  end.

(** A session: the events in order, from the initial state of [Home]. *)
Definition homeSession (events : list HomeEvent) (w : World) : Home * World :=
  fold_left homeStep events (initialHome, w).

(** A binary64 value that is not NaN. *)
Definition notNaN (f : spec_float) : Prop :=
  match f with S754_nan => False | _ => True end.

(** [ResultCard]: the threat meter next to the verdict. *)
Module ThreatMeter.

Inductive Level := LOW | MODERATE | HIGH | CRITICAL.

Inductive Colour := neo_red | neo_orange | neo_green.

(** [x < y]. *)
Definition lt (x y : number) : bool := (x <? y)%float.

(** The label: [pct < 26 ? "LOW" : pct < 50 ? "MODERATE" : pct < 76 ?
    "HIGH" : "CRITICAL"]. *)
Definition level (result : AnalysisResult) : Level :=
  let pct := ResultCard.pct result in
  if lt pct 26%float then LOW
  else if lt pct 50%float then MODERATE
  else if lt pct 76%float then HIGH
  else CRITICAL.

(** The background of the label. *)
Definition badgeColour (result : AnalysisResult) : Colour :=
  let pct := ResultCard.pct result in
  if ge pct 76%float then neo_red
  else if ge pct 50%float then neo_orange
  else neo_green.

(** [threatBarColor]. *)
Definition threatBarColor (result : AnalysisResult) : Colour :=
  let pct := ResultCard.pct result in
  if ge pct 76%float then neo_red
  else if ge pct 46%float then neo_orange
  else neo_green.

End ThreatMeter.

(** ** [HighlightedMessage] (page.tsx) *)

(** Two code units that the flag [i] of a regular expression identifies:
    below U+0100 these are the ones with the same lower-case form. *)
Definition sameLetter (c d : ascii) : bool :=
  Ascii.eqb (toLowerChar c) (toLowerChar d).

(** The escaped phrase [p], as a pattern with flag [i], matches at the
    start of [s]: escaping makes every code unit of the phrase stand for
    itself. *)
Fixpoint matchesPhrase (p s : jsstring) : bool :=
  match p, s with
  | [], _ => true
  | _ :: _, [] => false
  | a :: p', c :: s' => sameLetter c a && matchesPhrase p' s'
  end.

(** The regular expression [(p1|p2|...)] applied at the start of [s]: the
    alternatives are tried in order and the first one that matches gives
    the length of the match. *)
Fixpoint matchAt (phrases : list HighlightedPhrase) (s : jsstring)
  : option nat :=
  match phrases with
  | [] => None
  | p :: rest =>
      if matchesPhrase (phrase p) s then Some (List.length (phrase p))
      else matchAt rest s
  end.

(** The loop of [text.split(regex)] over the rest [s] of the text.
    [pending] holds, in reverse, the code units read since the end of the
    last match; [skip] counts the code units of [s] that belong to a match
    already put out.  A match puts out the pending part and the matched
    text (the capture group); an empty match where the last match ended is
    passed over. *)
Fixpoint splitLoop (phrases : list HighlightedPhrase) (s : jsstring)
    (skip : nat) (pending : jsstring) : list jsstring :=
  match s with
  | [] => [rev pending]
  | c :: s' =>
      match skip with
      | S k => splitLoop phrases s' k []
      | O =>
          match matchAt phrases s with
          | None => splitLoop phrases s' 0 (c :: pending)
          | Some O =>
              match pending with
              | [] => splitLoop phrases s' 0 [c]
              | _ :: _ => rev pending :: [] :: splitLoop phrases s' 0 [c]
              end
          | Some (S k) =>
              rev pending :: firstn (S k) s :: splitLoop phrases s' k []
          end
      end
  end.

(** [text.split(regex)]; on the empty text the result is empty when the
    expression matches the empty string, and the text itself when not. *)
Definition splitByPhrases (phrases : list HighlightedPhrase)
    (text : jsstring) : list jsstring :=
  match text with
  | [] => match matchAt phrases [] with Some _ => [] | None => [[]] end
  | _ :: _ => splitLoop phrases text 0 []
  end.

(** What is rendered for one part: a plain [span], or a [mark] of high or
    medium danger. *)
Inductive Span :=
| Plain (part : jsstring)
| Mark (level : Danger) (part : jsstring).

Definition spanText (s : Span) : jsstring :=
  match s with Plain part | Mark _ part => part end.

(** [phrases.find((p) => p.phrase.toLowerCase() === part.toLowerCase())]. *)
Definition findPhrase (phrases : list HighlightedPhrase) (part : jsstring)
  : option HighlightedPhrase :=
  find (fun p => strictEq (toLowerCase (phrase p)) (toLowerCase part)) phrases.

Definition renderPart (phrases : list HighlightedPhrase) (part : jsstring)
  : Span :=
  match findPhrase phrases part with
  | None => Plain part
  | Some p => Mark (danger p) part
  end.

Definition HighlightedMessage (text : jsstring)
    (phrases : list HighlightedPhrase) : list Span :=
  match phrases with
  | [] => [Plain text]
  | _ :: _ => map (renderPart phrases) (splitByPhrases phrases text)
  end.

(** Some phrase occurs in the text, in some letter case. *)
Definition phraseOccurs (phrases : list HighlightedPhrase)
    (text : jsstring) : Prop :=
  exists p before after,
    In p phrases /\ text = before ++ after
    /\ matchesPhrase (phrase p) after = true.

(** Some part of the rendering is marked. *)
Definition someMark (spans : list Span) : Prop :=
  exists level part, In (Mark level part) spans.

(** ** Traces of calls to the ledger contract *)

Module LedgerTrace.

Import ScamLedger.

(** A call of one of the three external functions. *)
Inductive Invocation :=
| CallAddScamHash (_hash _category : string)
| CallGetTotalScams
| CallGetScamByIndex (index : N).

(** A transaction: a call and the block it is executed in. *)
Record Transaction := { invocation : Invocation; block : Block }.

(** The storage and the events a transaction leaves; a transaction that
    reverts or panics leaves the storage as it was and no event. *)
Definition settle {A} (s : Storage) (o : Outcome A) : Storage * list Event :=
  match o with
  | Success _ s' log => (s', log)
  | _ => (s, [])
  end.

Definition execute (s : Storage) (t : Transaction) : Storage * list Event :=
  match invocation t with
  | CallAddScamHash h c => settle s (addScamHash h c (block t) s)
  | CallGetTotalScams => settle s (getTotalScams (block t) s)
  | CallGetScamByIndex i => settle s (getScamByIndex i (block t) s)
  end.

(** The transactions in order, from storage [s]: the final storage and all
    events. *)
Fixpoint executeAll (txs : list Transaction) (s : Storage)
  : Storage * list Event :=
  match txs with
  | [] => (s, [])
  | t :: txs' =>
      let (s1, log1) := execute s t in
      let (s2, log2) := executeAll txs' s1 in
      (s2, log1 ++ log2)
  end.

(** The entries the [addScamHash] calls of a trace store, in order. *)
Definition stored (t : Transaction) : list ScamEntry :=
  match invocation t with
  | CallAddScamHash h c =>
      [{| hash := h; category := c;
          timestamp := block_timestamp (block t) |}]
  | _ => []
  end.

(** What an event says about its entry. *)
Definition entryOfEvent (e : Event) : ScamEntry :=
  match e with
  | ScamAdded _ h c t => {| hash := h; category := c; timestamp := t |}
  end.

End LedgerTrace.
(** * Sanity checks of the embedding *)

Example normalizeForHash_demo :
  normalizeForHash
    (str "  URGENT:" ++ [tab; space] ++ str "Your   OTP" ++ [newline; tab]
     ++ str "is 1234  ")
  = str "urgent: your otp is 1234".
Proof. reflexivity. Qed.

Example sha256_abc :
  sha256 (str "abc")
  = str "ba7816bf8f01cfea414140de5dae2223b00361a396177a9cb410ff61f20015ad".
Proof. vm_compute. reflexivity. Qed.

Example sha256_empty :
  sha256 []
  = str "e3b0c44298fc1c149afbf4c8996fb92427ae41e4649b934ca495991b7852b855".
Proof. vm_compute. reflexivity. Qed.

Example sha256_two_blocks :
  sha256 (str "abcdbcdecdefdefgefghfghighijhijkijkljklmklmnlmnomnopnopq")
  = str "248d6a61d20638b8e5c026930c3e6039a33ce45964ff2167f6ecedd419db06c1".
Proof. vm_compute. reflexivity. Qed.

(** * The fingerprint pipeline *)

Ltac each_code_unit c :=
  destruct c as [[|] [|] [|] [|] [|] [|] [|] [|]].

Lemma isWhiteSpace_toLowerChar c :
  isWhiteSpace (toLowerChar c) = isWhiteSpace c.
Proof. each_code_unit c; reflexivity. Qed.

Lemma toLowerChar_lowerOf c :
  isUpper c = true -> toLowerChar (lowerOf c) = toLowerChar c.
Proof. each_code_unit c; intros H; try reflexivity; discriminate H. Qed.

Lemma trimStart_toLowerCase s :
  trimStart (toLowerCase s) = toLowerCase (trimStart s).
Proof.
  induction s as [|c s IH]; simpl; [reflexivity|].
  rewrite isWhiteSpace_toLowerChar.
  destruct (isWhiteSpace c); [exact IH | reflexivity].
Qed.

Lemma trimEnd_toLowerCase s :
  trimEnd (toLowerCase s) = toLowerCase (trimEnd s).
Proof.
  unfold toLowerCase.
  induction s as [|c s IH]; simpl; [reflexivity|].
  rewrite IH, isWhiteSpace_toLowerChar.
  destruct (trimEnd s); simpl; [destruct (isWhiteSpace c)|]; reflexivity.
Qed.

Lemma trim_toLowerCase s : trim (toLowerCase s) = toLowerCase (trim s).
Proof.
  unfold trim. now rewrite trimStart_toLowerCase, trimEnd_toLowerCase.
Qed.

(** After [trimEnd], replacing the runs eagerly and emitting the space
    lazily give the same text. *)
Lemma replace_trimEnd s :
  replaceWhiteSpaceRuns false (trimEnd s) = canonical InWord s
  /\ (trimEnd s <> [] ->
      space :: replaceWhiteSpaceRuns true (trimEnd s) = canonical InGap s)
  /\ (trimEnd s = [] -> canonical InGap s = []).
Proof.
  induction s as [|c s (IH1 & IH2 & IH3)]; simpl.
  - repeat split; congruence.
  - destruct (trimEnd s) as [|d r] eqn:E.
    + destruct (isWhiteSpace c) eqn:W; simpl; rewrite ?W; simpl;
        rewrite <- ?IH1, ?IH3 by reflexivity; repeat split;
        try reflexivity; try congruence.
    + assert (N : d :: r <> []) by discriminate.
      specialize (IH2 N).
      destruct (isWhiteSpace c) eqn:W; simpl; rewrite ?W; simpl;
        rewrite <- ?IH1, <- ?IH2; repeat split; try reflexivity;
        try congruence; try discriminate.
Qed.

Lemma replace_trim s :
  replaceWhiteSpaceRuns false (trim s) = canonical AtStart s.
Proof.
  unfold trim. induction s as [|c s IH]; simpl; [reflexivity|].
  destruct (isWhiteSpace c) eqn:W; [exact IH|].
  simpl. destruct (replace_trimEnd s) as (H1 & _ & _).
  destruct (trimEnd s); simpl in *; rewrite ?W; simpl; rewrite ?W;
    now rewrite <- H1.
Qed.

(** [normalizeForHash] is the one-scan canonical form of the lower-cased
    text. *)
Lemma normalizeForHash_canonical text :
  normalizeForHash text = canonical AtStart (toLowerCase text).
Proof.
  unfold normalizeForHash. now rewrite <- trim_toLowerCase, replace_trim.
Qed.

Lemma canonical_app st s t :
  canonical st (s ++ t) = canonical st s ++ canonical (scan st s) t.
Proof.
  revert st. induction s as [|c s IH]; intros st; simpl; [reflexivity|].
  destruct (isWhiteSpace c); [apply IH|].
  destruct st; simpl; now rewrite IH.
Qed.

Lemma afterWhiteSpace_idem st :
  afterWhiteSpace (afterWhiteSpace st) = afterWhiteSpace st.
Proof. now destruct st. Qed.

Lemma canonical_white_space_edit st s w t u :
  isWhiteSpace w = true ->
  canonical (afterWhiteSpace (scan st s)) t = u ->
  canonical st (s ++ w :: t) = canonical st s ++ u.
Proof.
  intros W <-. rewrite canonical_app. simpl. now rewrite W.
Qed.

Lemma toLowerCase_white_space s w t :
  toLowerCase (s ++ w :: t) = toLowerCase s ++ toLowerChar w :: toLowerCase t.
Proof. unfold toLowerCase. now rewrite map_app. Qed.

(** Every cosmetic edit keeps the canonical text. *)
Lemma normalizeForHash_cosmetic T1 T2 :
  CosmeticVariant T1 T2 -> normalizeForHash T1 = normalizeForHash T2.
Proof.
  intros H. rewrite !normalizeForHash_canonical.
  induction H as [s | s t _ IH | s t u _ IH1 _ IH2 | s c t U
                  | w s W | w s W | s w w' t W W' | s w w' t W W'].
  - reflexivity.
  - now symmetry.
  - now transitivity (canonical AtStart (toLowerCase t)).
  - rewrite !toLowerCase_white_space. now rewrite toLowerChar_lowerOf.
  - simpl. now rewrite isWhiteSpace_toLowerChar, W.
  - rewrite toLowerCase_white_space.
    rewrite <- isWhiteSpace_toLowerChar in W.
    rewrite (canonical_white_space_edit _ _ _ _ _ W eq_refl).
    apply app_nil_r.
  - rewrite <- isWhiteSpace_toLowerChar in W, W'.
    rewrite !toLowerCase_white_space.
    rewrite (canonical_white_space_edit _ _ _ _ _ W eq_refl).
    rewrite (canonical_white_space_edit _ _ _
               (toLowerChar w' :: toLowerCase t) _ W eq_refl).
    simpl. now rewrite W', afterWhiteSpace_idem.
  - rewrite <- isWhiteSpace_toLowerChar in W, W'.
    rewrite !toLowerCase_white_space.
    rewrite (canonical_white_space_edit _ _ _ _ _ W eq_refl).
    now rewrite (canonical_white_space_edit _ _ _ _ _ W' eq_refl).
Qed.




(** *** The cosmetic edits reach the canonical text

    The converse: every text is a cosmetic variant of its own canonical
    form, so two texts are cosmetic variants of each other exactly when
    [normalizeForHash] maps them to the same text. *)

Lemma toLowerChar_cases c :
  toLowerChar c = c \/ (isUpper c = true /\ toLowerChar c = lowerOf c).
Proof.
  unfold toLowerChar, lowerOf. destruct (isUpper c); [right|left]; tauto.
Qed.

Lemma cosmetic_toLowerCase s :
  forall pre, CosmeticVariant (pre ++ s) (pre ++ toLowerCase s).
Proof.
  induction s as [|c s IH]; intros pre; simpl; [apply cosmetic_refl|].
  apply cosmetic_trans with (pre ++ toLowerChar c :: s).
  - destruct (toLowerChar_cases c) as [->|[U ->]];
      [apply cosmetic_refl | now apply cosmetic_case].
  - specialize (IH (pre ++ [toLowerChar c])).
    now rewrite <- !app_assoc in IH.
Qed.

Lemma cosmetic_canonical_tail s :
  forall out,
    CosmeticVariant (out ++ s) (out ++ canonical InWord s)
    /\ forall w, isWhiteSpace w = true ->
                 CosmeticVariant (out ++ w :: s) (out ++ canonical InGap s).
Proof.
  induction s as [|c s IH]; intros out; simpl.
  - split; [apply cosmetic_refl|].
    intros w W. rewrite app_nil_r. now apply cosmetic_trailing.
  - destruct (isWhiteSpace c) eqn:C; simpl.
    + split; [now apply IH|].
      intros w W. apply cosmetic_trans with (out ++ w :: s).
      * apply cosmetic_sym. now apply cosmetic_run_length.
      * now apply IH.
    + pose proof (proj1 (IH (out ++ [c]))) as H1.
      rewrite <- !app_assoc in H1. split; [exact H1|].
      intros w W. apply cosmetic_trans with (out ++ space :: c :: s).
      * now apply cosmetic_run_kind.
      * pose proof (proj1 (IH (out ++ [space; c]))) as H2.
        now rewrite <- !app_assoc in H2.
Qed.

Lemma cosmetic_canonical s : CosmeticVariant s (canonical AtStart s).
Proof.
  induction s as [|c s IH]; simpl; [apply cosmetic_refl|].
  destruct (isWhiteSpace c) eqn:C.
  - apply cosmetic_trans with s; [now apply cosmetic_leading | exact IH].
  - exact (proj1 (cosmetic_canonical_tail s [c])).
Qed.

Lemma cosmetic_normalizeForHash text :
  CosmeticVariant text (normalizeForHash text).
Proof.
  rewrite normalizeForHash_canonical.
  apply cosmetic_trans with (toLowerCase text).
  - exact (cosmetic_toLowerCase text []).
  - apply cosmetic_canonical.
Qed.

(** The cosmetic variants are exactly the texts with the same canonical
    form. *)
Lemma cosmetic_iff_same_canonical T1 T2 :
  CosmeticVariant T1 T2 <-> normalizeForHash T1 = normalizeForHash T2.
Proof.
  split; [apply normalizeForHash_cosmetic|].
  intros E. apply cosmetic_trans with (normalizeForHash T1).
  - apply cosmetic_normalizeForHash.
  - rewrite E. apply cosmetic_sym, cosmetic_normalizeForHash.
Qed.

(** * The forward detector and the verdict *)

(** ** Facts about binary64 arithmetic *)

Section Binary64.

Local Open Scope Z_scope.

Lemma shr_1_nonneg mrs : 0 <= shr_m mrs -> 0 <= shr_m (shr_1 mrs).
Proof.
  destruct mrs as [m r s]; simpl; intros H.
  destruct m as [|p|p]; [simpl; lia | destruct p; simpl; lia | lia].
Qed.

Lemma iter_shr_1_nonneg p :
  forall mrs, 0 <= shr_m mrs -> 0 <= shr_m (iter_pos shr_1 p mrs).
Proof.
  induction p as [p IH|p IH|]; simpl; intros mrs H.
  - apply IH, IH, shr_1_nonneg, H.
  - apply IH, IH, H.
  - apply shr_1_nonneg, H.
Qed.

Lemma shr_fexp_nonneg m e l :
  0 <= m -> 0 <= shr_m (fst (shr_fexp prec emax m e l)).
Proof.
  intros H. unfold shr_fexp, shr.
  assert (H0 : 0 <= shr_m (shr_record_of_loc m l))
    by (destruct l as [|[]]; exact H).
  destruct (fexp prec emax (Zdigits2 m + e) - e); simpl;
    [exact H0 | apply iter_shr_1_nonneg, H0 | exact H0].
Qed.

Lemma round_nearest_even_nonneg m l :
  0 <= m -> 0 <= round_nearest_even m l.
Proof.
  intros H. destruct l as [|[]]; simpl; try lia.
  destruct (Z.even m); lia.
Qed.

(** Rounding a non-negative integer mantissa never yields NaN and keeps
    the sign it is given. *)
Lemma binary_round_aux_sign sx m e l :
  0 <= m -> hasSign sx (binary_round_aux prec emax sx m e l).
Proof.
  intros H. unfold binary_round_aux.
  pose proof (shr_fexp_nonneg m e l H) as H1.
  destruct (shr_fexp prec emax m e l) as [mrs' e'].
  simpl in H1.
  pose proof (shr_fexp_nonneg _ e' loc_Exact
                (round_nearest_even_nonneg _ (loc_of_shr_record mrs') H1))
    as H2.
  destruct (shr_fexp prec emax _ e' loc_Exact) as [mrs'' e''].
  simpl in H2.
  destruct (shr_m mrs'') as [|p|p]; [reflexivity | | lia].
  destruct (e'' <=? emax - prec); reflexivity.
Qed.

(** The sum of two values that are zero or positive and finite is not NaN
    and not negative. *)
Lemma SFadd_nonneg x y :
  match x with S754_zero _ | S754_finite false _ _ => True | _ => False end ->
  match y with S754_finite false _ _ => True | _ => False end ->
  hasSign false (SF64add x y).
Proof.
  destruct x as [sx|sx| |[|] mx ex]; try contradiction;
    destruct y as [sy|sy| |[|] my ey]; try contradiction; intros _ _.
  - exact eq_refl.
  - unfold SF64add, SFadd, binary_normalize, cond_Zopp.
    destruct (shl_align mx ex (Z.min ex ey)) as [m1 e1].
    destruct (shl_align my ey (Z.min ex ey)) as [m2 e2]. simpl.
    unfold binary_round.
    destruct (shl_align _ _ _) as [mz ez].
    apply binary_round_aux_sign. lia.
Qed.

Lemma SFeqb_refl sx x : hasSign sx x -> SFeqb x x = true.
Proof.
  destruct x as [s|s| |s m e]; simpl; try tauto; intros _; unfold SFeqb; simpl;
    try reflexivity.
  - now destruct s.
  - rewrite Z.compare_refl, (Pos.compare_cont_refl m Eq). now destruct s.
Qed.

Lemma SFleb_zero_nonneg x : hasSign false x -> SFleb (S754_zero false) x = true.
Proof.
  destruct x as [s|s| |s m e]; simpl; try tauto; intros ->; reflexivity.
Qed.

(** Below a positive value of smaller exponent means at most the value
    of larger exponent. *)
Lemma SFltb_leb_exponent x m1 e1 m2 e2 :
  hasSign false x -> e1 < e2 ->
  SFltb x (S754_finite false m1 e1) = true ->
  SFleb x (S754_finite false m2 e2) = true.
Proof.
  destruct x as [s|s| |s m e]; cbn [hasSign]; try tauto; intros -> He;
    unfold SFltb, SFleb; cbn [SFcompare]; try discriminate; try reflexivity.
  destruct (Z.compare_spec e e1); try discriminate; intros _;
    destruct (Z.compare_spec e e2); try lia; reflexivity.
Qed.

(** Below 0.99 means at most 1. *)
Lemma SFltb_099_leb_1 x :
  hasSign false x ->
  SFltb x (Prim2SF 0.99%float) = true -> SFleb x (Prim2SF 1%float) = true.
Proof.
  change (Prim2SF 0.99%float)
    with (S754_finite false 8917127262193582 (-53)).
  change (Prim2SF 1%float) with (S754_finite false 4503599627370496 (-52)).
  intros H. apply SFltb_leb_exponent; [exact H | lia].
Qed.

Lemma unit_interval_shape p :
  inUnitInterval p ->
  match Prim2SF p with
  | S754_zero _ | S754_finite false _ _ => True
  | _ => False
  end.
Proof.
  intros [H0 H1]. rewrite leb_spec in H0, H1.
  change (Prim2SF 0%float) with (S754_zero false) in H0.
  change (Prim2SF 1%float)
    with (S754_finite false 4503599627370496 (-52)) in H1.
  destruct (Prim2SF p) as [s|s| |s m e]; try exact I;
    unfold SFleb in H0, H1; cbn [SFcompare] in H0, H1; try discriminate.
  - destruct s; discriminate.
  - destruct s; [discriminate | exact I].
Qed.

(** The boosted value of a probability is a probability. *)
Lemma boosted_in_unit_interval p :
  inUnitInterval p ->
  inUnitInterval (Math_min (p + 0.15)%float 0.99%float).
Proof.
  intros Hp.
  assert (HX : hasSign false (Prim2SF (p + 0.15)%float)).
  { rewrite add_spec. apply SFadd_nonneg.
    - apply unit_interval_shape, Hp.
    - exact I. }
  assert (H99 : inUnitInterval 0.99%float) by (split; reflexivity).
  assert (Hx0 : (0 <=? p + 0.15)%float = true).
  { rewrite leb_spec. apply SFleb_zero_nonneg, HX. }
  unfold Math_min.
  replace (is_nan (p + 0.15)%float) with false
    by (unfold is_nan; rewrite eqb_spec, (SFeqb_refl false _ HX); reflexivity).
  change (is_nan 0.99%float) with false. cbv [orb].
  destruct (p + 0.15 <? 0.99)%float eqn:Hlt.
  - split; [exact Hx0|].
    rewrite ltb_spec in Hlt. rewrite leb_spec.
    apply SFltb_099_leb_1; assumption.
  - destruct (0.99 <? p + 0.15)%float; [exact H99|].
    destruct (classify (p + 0.15)%float) eqn:Hc; try exact H99.
    split; [exact Hx0|].
    rewrite classify_spec in Hc. rewrite leb_spec.
    destruct (Prim2SF (p + 0.15)%float) as [s|s| |s m e];
      cbn [hasSign SF64classify SFclassify] in *; try contradiction;
      subst s.
    + reflexivity.
    + discriminate Hc.
    + destruct (Z.pos (digits2_pos m) =? prec)%Z; discriminate Hc.
Qed.

End Binary64.

(** ** The WhatsApp forward detector *)

(** C5.  For every analysis result whose probability is in [0,1] and every
    message, the probability after the WhatsApp forward detector is in
    [0,1] again: the boosted value [Math.min(probability + 0.15, 0.99)]
    neither exceeds 1 nor falls below 0, and a result that is not boosted
    keeps its probability. *)
Theorem forward_boost_stays_in_unit_interval message finalResult :
  inUnitInterval (probability finalResult) ->
  inUnitInterval (probability (whatsappForwardDetector message finalResult)).
Proof.
  intros H. unfold whatsappForwardDetector.
  destruct (truthy message); [|exact H].
  destruct (_ || _); [|exact H].
  destruct (negb _); [|exact H].
  simpl. apply boosted_in_unit_interval, H.
Qed.

Lemma forward_boost_stays_in_unit_interval_witness :
  let r := {| probability := 0.9%float; category := str "phishing";
              red_flags := [str "urgency"]; highlighted_phrases := None;
              psychology_explainer := None; advice := str "Do not reply.";
              extracted_text := None |} in
  let r' := whatsappForwardDetector (str "Forwarded many times: pay now") r in
  inUnitInterval (probability r)
  /\ probability r' = 0.99%float
  /\ inUnitInterval (probability r').
Proof.
  intros r r'.
  assert (H : inUnitInterval (probability r)) by (split; reflexivity).
  split; [exact H|]. split; [reflexivity|].
  exact (forward_boost_stays_in_unit_interval _ r H).
Defined.

(** The probability [handleAnalyze] publishes is in [0,1] whenever the
    backend's is. *)
Lemma handleAnalyze_publishes_probability body st w r :
  inUnitInterval (json_probability body) ->
  result (fst (handleAnalyze (AnalyzeAnswered body) st w)) = Some r ->
  inUnitInterval (probability r).
Proof.
  intros H. unfold handleAnalyze.
  destruct (_ && _); simpl; [discriminate|].
  intros [= <-]. unfold whatsappForwardDetector.
  destruct (truthy (message st)); [|exact H].
  destruct (_ || _); [|exact H].
  destruct (negb _); [|exact H].
  apply boosted_in_unit_interval, H.
Qed.

(** The flag the detector adds is not the flag it looks for. *)
Lemma flagAdded_not_looked_for : strictEq flagLookedFor flagAdded = false.
Proof. reflexivity. Qed.

(** A second run of the detector on its own output boosts again, whatever
    the result, when the forward pattern matches and the backend did not
    send the flag looked for. *)
Lemma forward_detector_twice message r :
  truthy message = true ->
  startsWith (toLowerCase (trim message)) (str "forwarded")
  || includes (toLowerCase (trim message)) (str "forwarded many times")
  = true ->
  arrayIncludes (red_flags r) flagLookedFor = false ->
  let r2 := whatsappForwardDetector message
              (whatsappForwardDetector message r) in
  red_flags r2 = flagAdded :: flagAdded :: red_flags r
  /\ probability r2
     = Math_min (Math_min (probability r + 0.15) 0.99 + 0.15)%float
                0.99%float.
Proof.
  intros T P G. unfold whatsappForwardDetector.
  rewrite T, P, G. cbn [negb red_flags probability arrayIncludes existsb].
  rewrite flagAdded_not_looked_for. unfold arrayIncludes in G.
  rewrite G. split; reflexivity.
Qed.

(** C2.  The code at the failing input: on the message "Forwarded: you
    won" and a result with probability 0.5 and no red flags, the first run
    of the detector gives probability 0.65 and one flag, and a second run
    on that boosted result gives probability 0.8 and the flag twice: the
    boost is counted again. *)
Theorem forward_boost_counted_twice :
  let message := str "Forwarded: you won" in
  let r0 := {| probability := 0.5%float; category := str "lottery scam";
               red_flags := []; highlighted_phrases := None;
               psychology_explainer := None; advice := str "Ignore it.";
               extracted_text := None |} in
  let r1 := whatsappForwardDetector message r0 in
  let r2 := whatsappForwardDetector message r1 in
  probability r1 = 0.65%float /\ red_flags r1 = [flagAdded]
  /\ probability r2 = 0.8%float /\ red_flags r2 = [flagAdded; flagAdded]
  /\ (probability r1 <? probability r2)%float = true
  /\ r2 <> r1.
Proof.
  intros message r0 r1 r2.
  repeat split; try reflexivity.
  intros E. apply (f_equal red_flags) in E. discriminate E.
Qed.

(** ** The verdict *)

(** The history row's verdict is the comparison with 0.5. *)
Lemma LocalHistory_isScam_iff item :
  LocalHistory.isScam item = true
  <-> (0.5 <=? LocalHistory.probability item)%float = true.
Proof. reflexivity. Qed.

(** Where [ResultCard]'s verdict turns: 0.494 is shown as safe, 0.495 and
    0.5 as scam. *)
Example ResultCard_verdict_turns_at_0495 :
  let card p := ResultCard.isScam
                  {| probability := p; category := []; red_flags := [];
                     highlighted_phrases := None; psychology_explainer := None;
                     advice := []; extracted_text := None |} in
  card 0.494%float = false /\ card 0.495%float = true
  /\ card 0.5%float = true.
Proof. repeat split; reflexivity. Qed.

(** C6.  The code at the failing input: the user analyses the message
    "Your parcel is waiting" and the backend answers with probability
    0.497, which is below 0.5.  [ResultCard] computes 50 percent and shows
    the scam verdict, while the history row written by the same scan is
    shown as safe. *)
Theorem ResultCard_scam_below_half :
  let body := {| json_probability := 0.497%float;
                 json_category := str "courier scam";
                 json_red_flags := Some [];
                 json_highlighted_phrases := Some [];
                 json_psychology_explainer := None;
                 json_advice := str "Check the tracking number.";
                 json_extracted_text := None |} in
  let st := handleMessageChange (str "Your parcel is waiting") initialHome in
  let run := handleAnalyze (AnalyzeAnswered body) st (freshWorld 0 0) in
  exists r item,
    result (fst run) = Some r
    /\ scamshield_history (snd run) = [item]
    /\ probability r = 0.497%float
    /\ LocalHistory.probability item = 0.497%float
    /\ (probability r <? 0.5)%float = true
    /\ ResultCard.pct r = 50%float
    /\ ResultCard.isScam r = true
    /\ LocalHistory.isScam item = false.
Proof.
  intros body st run. eexists _, _.
  split; [reflexivity|]. split; [reflexivity|].
  repeat split; reflexivity.
Qed.

(** * The store path *)

Lemma canonical_nil_iff s :
  canonical AtStart s = [] <-> whitespaceOnly s = true.
Proof.
  induction s as [|c s IH]; simpl; [tauto|].
  destruct (isWhiteSpace c); simpl; [exact IH|].
  split; discriminate.
Qed.

Lemma whitespaceOnly_toLowerCase s :
  whitespaceOnly (toLowerCase s) = whitespaceOnly s.
Proof.
  induction s as [|c s IH]; simpl; [reflexivity|].
  now rewrite isWhiteSpace_toLowerChar, IH.
Qed.

(** The canonical text is empty exactly for a text that is empty or white
    space only. *)
Lemma normalizeForHash_nil_iff text :
  normalizeForHash text = [] <-> whitespaceOnly text = true.
Proof.
  rewrite normalizeForHash_canonical, canonical_nil_iff.
  now rewrite whitespaceOnly_toLowerCase.
Qed.

(** What the store path does, case by case. *)
Lemma handleStoreOnBlockchain_run reply st w :
  snd (handleStoreOnBlockchain reply st w)
  = match result st with
    | None => w
    | Some r =>
        let normalized := normalizeForHash (rawInputOf st) in
        {| clock := clock w; entropy := entropy w;
           console :=
             (console w
              ++ [[str "[ScamShield] Hashing normalized input:";
                   JSON_stringify normalized]])
             ++ [[str "[ScamShield] Generated hash:"; sha256 normalized]];
           alerts :=
             alerts w
             ++ [match reply with
                 | StoreUnreachable => BackendUnreachable
                 | StoreRejectedNull => BackendUnreachable
                 | StoreRejected None =>
                     StorageFailed (str "Unknown server error")
                 | StoreRejected (Some (Some detail)) => StorageFailed detail
                 | StoreRejected (Some None) => StorageFailed (str "undefined")
                 | StoreAccepted => StoredInLedger
                 end];
           requests :=
             requests w ++ [StoreScam (sha256 normalized) (category r)];
           scamshield_history := scamshield_history w |}
    end.
Proof.
  unfold handleStoreOnBlockchain, rawInputOf.
  destruct (result st) as [r|]; [|reflexivity].
  destruct reply as [|[[d|]|]| |]; reflexivity.
Qed.

(** C4, as stated, fails.  A user uploads the image [scan.png], the
    backend answers with probability 0.9, the card shows the scam verdict
    and its ledger button, and the user stores the scan.  The message is
    empty, yet the store path does not reject: it fingerprints the file
    name and submits the digest. *)
Lemma store_path_fingerprints_blank_input :
  let file := {| name := str "scan.png" |} in
  let body := {| json_probability := 0.9%float;
                 json_category := str "phishing";
                 json_red_flags := Some [str "urgency"];
                 json_highlighted_phrases := None;
                 json_psychology_explainer := None;
                 json_advice := str "Do not click the link.";
                 json_extracted_text := Some (str "Your account is blocked") |} in
  let st1 := handleImageChange (Some file) initialHome in
  let run := handleAnalyze (AnalyzeAnswered body) st1 (freshWorld 0 0) in
  let st2 := fst run in
  let w2 := snd (handleStoreOnBlockchain StoreAccepted st2 (snd run)) in
  whitespaceOnly (message st2) = true
  /\ option_map ResultCard.isScam (result st2) = Some true
  /\ console w2
     = [[str "[ScamShield] Hashing normalized input:";
         quote :: str "scan.png" ++ [quote]];
        [str "[ScamShield] Generated hash:"; sha256 (str "scan.png")]]
  /\ requests w2
     = [AnalyzeImage file; StoreScam (sha256 (str "scan.png")) (str "phishing")]
  /\ alerts w2 = [StoredInLedger]
  /\ ~ storePathRejectsBlankInput.
Proof.
  intros file body st1 run st2 w2.
  assert (C : console w2
     = [[str "[ScamShield] Hashing normalized input:";
         quote :: str "scan.png" ++ [quote]];
        [str "[ScamShield] Generated hash:"; sha256 (str "scan.png")]])
    by (vm_compute; reflexivity).
  split; [reflexivity|]. split; [vm_compute; reflexivity|].
  split; [exact C|]. split; [vm_compute; reflexivity|].
  split; [reflexivity|].
  intros H.
  destruct (H StoreAccepted st2 (snd run) eq_refl) as [Hc _].
  fold w2 in Hc. rewrite C in Hc. discriminate Hc.
Qed.

(** With an image file whose name is one space the canonical text is
    empty, and the digest of the empty string is logged and submitted. *)
Lemma store_path_hashes_empty_canonical_text :
  let file := {| name := [space] |} in
  let r := {| probability := 0.9%float; category := str "phishing";
              red_flags := []; highlighted_phrases := Some [];
              psychology_explainer := None; advice := str "Do not reply.";
              extracted_text := None |} in
  let st := {| message := []; imageFile := Some file;
               imagePreview := Some file; result := Some r;
               loading := false; error := [] |} in
  let w := snd (handleStoreOnBlockchain StoreAccepted st (freshWorld 0 0)) in
  normalizeForHash (rawInputOf st) = []
  /\ requests w
     = [StoreScam
          (str "e3b0c44298fc1c149afbf4c8996fb92427ae41e4649b934ca495991b7852b855")
          (str "phishing")].
Proof. split; vm_compute; reflexivity. Qed.

(** C4, amended.  The store path has no rejection of blank text.  Without
    an analysis result it does nothing.  With a result it submits one
    request that carries the SHA-256 of the canonical form of its raw
    input and the result's category; the raw input is the message, or for
    an empty message the name of the image file, or the literal "image"
    when there is no file; a message with a code unit that is not white
    space is hashed itself, and its canonical text is not empty. *)
Theorem store_path_fingerprints_raw_input reply st w :
  let w' := snd (handleStoreOnBlockchain reply st w) in
  match result st with
  | None => w' = w
  | Some r =>
      requests w'
      = requests w
        ++ [StoreScam (sha256 (normalizeForHash (rawInputOf st))) (category r)]
      /\ (message st = [] -> imageFile st = None ->
          normalizeForHash (rawInputOf st) = str "image")
      /\ (message st = [] ->
          forall f, imageFile st = Some f -> truthy (name f) = true ->
          rawInputOf st = name f)
      /\ (whitespaceOnly (message st) = false ->
          rawInputOf st = message st
          /\ normalizeForHash (rawInputOf st) <> [])
  end.
Proof.
  intros w'. subst w'. rewrite handleStoreOnBlockchain_run.
  destruct (result st) as [r|]; [|reflexivity].
  split; [reflexivity|]. unfold rawInputOf. split; [|split].
  - intros -> ->. reflexivity.
  - intros -> f -> T. cbn [orElse truthy fileName]. unfold orElse.
    now rewrite T.
  - intros B. assert (T : truthy (message st) = true).
    { destruct (message st); [discriminate B | reflexivity]. }
    assert (R : orElse (message st)
                  (orElse (fileName (imageFile st)) (str "image"))
                = message st) by (unfold orElse at 1; now rewrite T).
    rewrite R. split; [reflexivity|].
    intros E. apply normalizeForHash_nil_iff in E. congruence.
Qed.

Lemma store_path_fingerprints_raw_input_witness :
  let r := {| probability := 0.9%float; category := str "bank scam";
              red_flags := []; highlighted_phrases := Some [];
              psychology_explainer := None; advice := str "Call your bank.";
              extracted_text := None |} in
  let st := {| message := str " URGENT  account blocked"; imageFile := None;
               imagePreview := None; result := Some r;
               loading := false; error := [] |} in
  let w := snd (handleStoreOnBlockchain StoreAccepted st (freshWorld 0 0)) in
  whitespaceOnly (message st) = false
  /\ normalizeForHash (rawInputOf st) = str "urgent account blocked"
  /\ requests w
     = [StoreScam (sha256 (str "urgent account blocked")) (str "bank scam")].
Proof.
  intros r st w.
  pose proof (store_path_fingerprints_raw_input StoreAccepted st
                (freshWorld 0 0)) as H.
  cbv zeta in H. change (result st) with (Some r) in H.
  destruct H as (H1 & _ & _ & H4).
  split; [reflexivity|]. split; [reflexivity|]. exact H1.
Defined.

(** * The ledger contract *)

Module LedgerProofs.

Import ScamLedger LedgerSpec.

Local Open Scope N_scope.

(** [addScamHash] always succeeds: it appends one entry and emits one
    event that carries the old length as index. *)
Lemma addScamHash_run h c blk s :
  addScamHash h c blk s
  = Success tt
      {| scams := scams s
                  ++ [{| hash := h; category := c;
                         timestamp := block_timestamp blk |}] |}
      [ScamAdded (N.of_nat (List.length (scams s))) h c (block_timestamp blk)].
Proof.
  unfold addScamHash, bind, blockTimestamp, scamsPush, scamsLength,
    checkedSub, emit. simpl.
  rewrite length_app. simpl List.length.
  replace (N.of_nat (List.length (scams s) + 1))
    with (N.of_nat (List.length (scams s)) + 1) by lia.
  destruct (N.leb_spec 1 (N.of_nat (List.length (scams s)) + 1)); [|lia].
  simpl. now replace (N.of_nat (List.length (scams s)) + 1 - 1)
    with (N.of_nat (List.length (scams s))) by lia.
Qed.

Lemma getTotalScams_run blk s :
  getTotalScams blk s = Success (N.of_nat (List.length (scams s))) s [].
Proof. reflexivity. Qed.

(** [getScamByIndex] inside the array. *)
Lemma getScamByIndex_inside index blk s e :
  nth_error (scams s) (N.to_nat index) = Some e ->
  getScamByIndex index blk s
  = Success (hash e, category e, timestamp e) s [].
Proof.
  intros H. unfold getScamByIndex, bind, scamsLength, require, scamsAt, ret.
  assert (L : index < N.of_nat (List.length (scams s))).
  { assert (N.to_nat index < List.length (scams s))%nat
      by (apply nth_error_Some; congruence). lia. }
  apply N.ltb_lt in L. rewrite L. now rewrite H.
Qed.

(** [getScamByIndex] outside the array. *)
Lemma getScamByIndex_outside index blk s :
  N.of_nat (List.length (scams s)) <= index ->
  getScamByIndex index blk s = Revert "Index out of bounds".
Proof.
  intros H. unfold getScamByIndex, bind, scamsLength, require.
  apply N.ltb_ge in H. now rewrite H.
Qed.

Lemma appendAll_run txs :
  forall s,
    appendAll txs s
    = Some ({| scams := scams s ++ map entryOf txs |},
            eventsFrom (List.length (scams s)) txs).
Proof.
  induction txs as [|tx txs IH]; intros s; simpl.
  - rewrite app_nil_r. now destruct s.
  - rewrite addScamHash_run, IH. simpl.
    rewrite <- app_assoc, length_app. simpl.
    now rewrite Nat.add_1_r.
Qed.

Lemma assignedIndex_eventsFrom txs :
  forall k,
    map assignedIndex (eventsFrom k txs)
    = map N.of_nat (seq k (List.length txs)).
Proof.
  induction txs as [|tx txs IH]; intros k; simpl; [reflexivity|].
  now rewrite IH.
Qed.

Lemma in_indices k n :
  In k (map N.of_nat (seq 0 n)) <-> k < N.of_nat n.
Proof.
  rewrite in_map_iff. split.
  - intros (i & <- & Hi). apply in_seq in Hi. lia.
  - intros H. exists (N.to_nat k). split; [lia|]. apply in_seq. lia.
Qed.

Lemma indices_sorted n :
  forall k, StronglySorted N.lt (map N.of_nat (seq k n)).
Proof.
  induction n as [|n IH]; intros k; simpl; constructor.
  - apply IH.
  - apply Forall_forall. intros x Hx.
    apply in_map_iff in Hx. destruct Hx as (i & <- & Hi).
    apply in_seq in Hi. lia.
Qed.

Lemma indices_nodup n : NoDup (map N.of_nat (seq 0 n)).
Proof.
  apply Injective_map_NoDup; [|apply seq_NoDup].
  intros x y. apply Nat2N.inj.
Qed.

(** C3, as stated, fails: the first entry of an empty ledger gets the
    index 0, not the sequence number 1.  One append on the deployed
    contract emits [ScamAdded] with index 0; the entry is read back at
    index 0 and a read at index 1 reverts. *)
Lemma first_append_gets_index_zero :
  let blk := {| block_timestamp := 1700000000 |} in
  let tx := {| append_hash := "ab12"; append_category := "phishing";
               append_block := blk |} in
  let s := {| scams := [entryOf tx] |} in
  appendAll [tx] deployed = Some (s, [ScamAdded 0 "ab12" "phishing" 1700000000])
  /\ getScamByIndex 0 blk s = Success ("ab12", "phishing", 1700000000)%string s []
  /\ getScamByIndex 1 blk s = Revert "Index out of bounds"
  /\ ~ sequencesStartAtOne.
Proof.
  intros blk tx s. repeat split; try reflexivity.
  intros H.
  destruct (H [tx] s _ eq_refl 0) as [H0 _].
  destruct (H0 (or_introl eq_refl)) as [H1 _]. lia.
Qed.

(** C3, amended.  [N] appends on an initially empty ledger all succeed, and
    the indices assigned to the stored entries, in the order of the
    appends, are exactly 0, 1, ..., N-1: every number below [N] and no
    other, none twice, each later one strictly greater than every earlier
    one.  The ledger then holds the [N] entries in that order and
    [getTotalScams] returns [N]. *)
Theorem appends_assign_indices_from_zero txs :
  exists s log,
    appendAll txs deployed = Some (s, log)
    /\ map assignedIndex log = map N.of_nat (seq 0 (List.length txs))
    /\ (forall k, In k (map assignedIndex log)
                  <-> k < N.of_nat (List.length txs))
    /\ NoDup (map assignedIndex log)
    /\ StronglySorted N.lt (map assignedIndex log)
    /\ scams s = map entryOf txs
    /\ forall blk,
         getTotalScams blk s = Success (N.of_nat (List.length txs)) s [].
Proof.
  eexists _, _. split; [apply appendAll_run|].
  simpl. rewrite assignedIndex_eventsFrom.
  repeat split.
  - apply in_indices.
  - apply in_indices.
  - apply indices_nodup.
  - apply indices_sorted.
  - intros blk. rewrite getTotalScams_run. simpl. now rewrite length_map.
Qed.

(** C7.  Appending the same fingerprint twice succeeds both times and
    creates two entries: on a ledger of [n] entries the first append gets
    index [n] and the second, never rejected as a duplicate, index [n+1];
    the count goes from [n] to [n+1] to [n+2]; both entries are read back
    with the same fingerprint. *)
Theorem duplicate_fingerprint_is_appended_again
    s fingerprint category1 category2 blk1 blk2 blk :
  let n := N.of_nat (List.length (scams s)) in
  exists s1 s2,
    addScamHash fingerprint category1 blk1 s
    = Success tt s1
        [ScamAdded n fingerprint category1 (block_timestamp blk1)]
    /\ addScamHash fingerprint category2 blk2 s1
       = Success tt s2
           [ScamAdded (n + 1) fingerprint category2 (block_timestamp blk2)]
    /\ getTotalScams blk s = Success n s []
    /\ getTotalScams blk s1 = Success (n + 1) s1 []
    /\ getTotalScams blk s2 = Success (n + 2) s2 []
    /\ getScamByIndex n blk s2
       = Success (fingerprint, category1, block_timestamp blk1) s2 []
    /\ getScamByIndex (n + 1) blk s2
       = Success (fingerprint, category2, block_timestamp blk2) s2 [].
Proof.
  intros n. subst n.
  eexists _, _. split; [apply addScamHash_run|].
  split.
  { rewrite addScamHash_run. simpl. rewrite length_app. simpl.
    now replace (N.of_nat (List.length (scams s) + 1))
      with (N.of_nat (List.length (scams s)) + 1) by lia. }
  rewrite !getTotalScams_run. simpl. rewrite !length_app. simpl.
  repeat split.
  - f_equal. lia.
  - f_equal. lia.
  - rewrite (getScamByIndex_inside _ _ _
               {| hash := fingerprint; category := category1;
                  timestamp := block_timestamp blk1 |}); [reflexivity|].
    simpl. rewrite Nat2N.id, <- app_assoc.
    rewrite nth_error_app2 by lia. now rewrite Nat.sub_diag.
  - rewrite (getScamByIndex_inside _ _ _
               {| hash := fingerprint; category := category2;
                  timestamp := block_timestamp blk2 |}); [reflexivity|].
    simpl.
    replace (N.to_nat (N.of_nat (List.length (scams s)) + 1))
      with (List.length (scams s
                         ++ [{| hash := fingerprint; category := category1;
                                timestamp := block_timestamp blk1 |}]))
      by (rewrite length_app; simpl; lia).
    rewrite nth_error_app2 by lia. now rewrite Nat.sub_diag.
Qed.

(** C9.  An append never modifies existing entries: for every ledger and
    every index below the count before an [addScamHash] call, reading that
    index after the call returns the same (hash, category, timestamp) as
    before, and the entries there were are the first entries afterwards,
    in the same order. *)
Theorem append_keeps_existing_entries s h c blk blk' i :
  i < N.of_nat (List.length (scams s)) ->
  let s' := storageAfter s (addScamHash h c blk s) in
  returned (getScamByIndex i blk' s') = returned (getScamByIndex i blk' s)
  /\ returned (getScamByIndex i blk' s) <> None
  /\ firstn (List.length (scams s)) (scams s') = scams s.
Proof.
  intros Hi s'. subst s'. rewrite addScamHash_run. simpl.
  assert (Hn : (N.to_nat i < List.length (scams s))%nat) by lia.
  destruct (nth_error (scams s) (N.to_nat i)) as [e|] eqn:E;
    [|apply nth_error_None in E; lia].
  rewrite (getScamByIndex_inside i blk' s e E).
  rewrite (getScamByIndex_inside i blk' _ e);
    [| simpl; rewrite nth_error_app1 by exact Hn; exact E].
  repeat split; [discriminate|].
  rewrite firstn_app, Nat.sub_diag, firstn_all. simpl. apply app_nil_r.
Qed.

Lemma append_keeps_existing_entries_witness :
  let s := {| scams := [ {| hash := "ab12"; category := "phishing";
                            timestamp := 1700000000 |};
                         {| hash := "cd34"; category := "bank scam";
                            timestamp := 1700000060 |} ] |} in
  let blk := {| block_timestamp := 1700000120 |} in
  let s' := storageAfter s (addScamHash "ef56" "job scam" blk s) in
  1 < N.of_nat (List.length (scams s))
  /\ returned (getScamByIndex 1 blk s')
     = Some ("cd34", "bank scam", 1700000060)%string
  /\ returned (getScamByIndex 1 blk s') = returned (getScamByIndex 1 blk s).
Proof.
  intros s blk s'.
  assert (H : 1 < N.of_nat (List.length (scams s))) by (simpl; lia).
  split; [exact H|]. split; [reflexivity|].
  exact (proj1 (append_keeps_existing_entries s "ef56" "job scam" blk blk 1 H)).
Defined.

(** C10.  [getScamByIndex(index)] succeeds, with the stored (hash,
    category, timestamp) of the entry at that position, if and only if
    [index] is below [getTotalScams()]; for every other index it reverts
    with "Index out of bounds"; and neither function changes the ledger
    or emits an event. *)
Theorem getScamByIndex_in_bounds_iff s blk index :
  let total := N.of_nat (List.length (scams s)) in
  getTotalScams blk s = Success total s []
  /\ (index < total <-> returned (getScamByIndex index blk s) <> None)
  /\ (if index <? total
      then exists e,
             nth_error (scams s) (N.to_nat index) = Some e
             /\ getScamByIndex index blk s
                = Success (hash e, category e, timestamp e) s []
      else getScamByIndex index blk s = Revert "Index out of bounds")
  /\ storageAfter s (getScamByIndex index blk s) = s
  /\ storageAfter s (getTotalScams blk s) = s.
Proof.
  intros total. subst total.
  split; [apply getTotalScams_run|].
  destruct (N.ltb_spec index (N.of_nat (List.length (scams s)))) as [L|L].
  - destruct (nth_error (scams s) (N.to_nat index)) as [e|] eqn:E;
      [|apply nth_error_None in E; lia].
    rewrite (getScamByIndex_inside index blk s e E). simpl.
    split; [split; [discriminate | intros _; exact L]|].
    split; [exists e; now split|]. now split.
  - rewrite (getScamByIndex_outside index blk s L). simpl.
    split; [split; [intros H; lia | congruence]|].
    split; [reflexivity|]. now split.
Qed.

End LedgerProofs.

(** * Further properties of the fingerprint pipeline *)

Lemma isUpper_toLowerChar c : isUpper (toLowerChar c) = false.
Proof. each_code_unit c; reflexivity. Qed.

Lemma toLowerChar_not_upper c : isUpper c = false -> toLowerChar c = c.
Proof. unfold toLowerChar. now intros ->. Qed.

Lemma white_space_not_upper c : isWhiteSpace c = true -> isUpper c = false.
Proof. each_code_unit c; intros H; try reflexivity; discriminate H. Qed.

Lemma canonical_wellSpaced s :
  Forall (fun c => isUpper c = false) s ->
  wellSpaced false (canonical InWord s) = true
  /\ wellSpaced false (canonical InGap s) = true.
Proof.
  induction 1 as [|c s U _ [IH1 IH2]]; simpl; [tauto|].
  destruct (isWhiteSpace c) eqn:W; simpl.
  - tauto.
  - rewrite W, U, IH1. simpl. tauto.
Qed.

Lemma canonical_shape s :
  Forall (fun c => isUpper c = false) s ->
  canonicalShape (canonical AtStart s) = true.
Proof.
  induction 1 as [|c s U H IH]; simpl; [reflexivity|].
  destruct (isWhiteSpace c) eqn:W; [exact IH|].
  simpl. rewrite W, U. simpl. now apply canonical_wellSpaced.
Qed.

Lemma toLowerCase_no_upper s :
  Forall (fun c => isUpper c = false) (toLowerCase s).
Proof.
  induction s as [|c s IH]; simpl; constructor;
    [apply isUpper_toLowerChar | exact IH].
Qed.

Lemma wellSpaced_no_upper s :
  forall b, wellSpaced b s = true -> toLowerCase s = s.
Proof.
  induction s as [|c s IH]; intros b H; simpl in *; [reflexivity|].
  destruct (isWhiteSpace c) eqn:W.
  - apply andb_prop in H. destruct H as [_ H].
    now rewrite (toLowerChar_not_upper c (white_space_not_upper c W)),
      (IH true H).
  - apply andb_prop in H. destruct H as [U H].
    apply negb_true_iff in U.
    now rewrite (toLowerChar_not_upper c U), (IH false H).
Qed.

Lemma wellSpaced_canonical s :
  (wellSpaced false s = true -> canonical InWord s = s)
  /\ (wellSpaced true s = true -> canonical InGap s = space :: s).
Proof.
  induction s as [|c s [IH1 IH2]]; simpl.
  - split; [reflexivity | discriminate].
  - destruct (isWhiteSpace c) eqn:W; simpl.
    + split; [|rewrite andb_false_r; discriminate].
      rewrite andb_true_r. intros H. apply andb_prop in H.
      destruct H as [E H]. apply Ascii.eqb_eq in E. subst c.
      now apply IH2.
    + split; intros H; apply andb_prop in H; destruct H as [_ H];
        now rewrite (IH1 H).
Qed.

Lemma canonicalShape_fixed s :
  canonicalShape s = true -> normalizeForHash s = s.
Proof.
  intros H. rewrite normalizeForHash_canonical.
  destruct s as [|c s]; [reflexivity|].
  unfold canonicalShape in H.
  rewrite (wellSpaced_no_upper _ true H).
  simpl in *. destruct (isWhiteSpace c);
    [rewrite andb_false_r in H; discriminate H|].
  apply andb_prop in H. destruct H as [_ H].
  now rewrite (proj1 (wellSpaced_canonical s) H).
Qed.

Lemma normalizeForHash_shape text :
  canonicalShape (normalizeForHash text) = true.
Proof.
  rewrite normalizeForHash_canonical.
  apply canonical_shape, toLowerCase_no_upper.
Qed.

(** X1.  For texts of code units below U+0100, the canonical texts are
    exactly the texts in canonical shape: on such a text
    [normalizeForHash] returns a text without the capitals A-Z and
    U+00C0..U+00DE, without leading, trailing or doubled spaces and
    without any other white space, and it returns the text as it is
    exactly when the text has that shape. *)
Theorem normalizeForHash_fixed_iff_shape text :
  canonicalShape (normalizeForHash text) = true
  /\ (normalizeForHash text = text <-> canonicalShape text = true).
Proof.
  split; [apply normalizeForHash_shape|]. split.
  - intros <-. apply normalizeForHash_shape.
  - apply canonicalShape_fixed.
Qed.

(** X2.  Normalizing twice is normalizing once, so a client may submit the
    raw or the already normalized message and obtains the same
    fingerprint. *)
Theorem normalizeForHash_idempotent text :
  normalizeForHash (normalizeForHash text) = normalizeForHash text
  /\ sha256 (normalizeForHash (normalizeForHash text))
     = sha256 (normalizeForHash text).
Proof.
  assert (E : normalizeForHash (normalizeForHash text) = normalizeForHash text)
    by apply canonicalShape_fixed, normalizeForHash_shape.
  now rewrite E.
Qed.

(** X3.  Two texts of code units below U+0100 have the same canonical
    text if and only if they are cosmetic variants of each other, that is,
    reachable from each other by changing letters one for one between
    capital and small (A-Z with a-z, U+00C0..U+00DE with U+00E0..U+00FE)
    and by rearranging white space: on such texts [normalizeForHash]
    merges nothing else. *)
Theorem same_canonical_text_iff_cosmetic T1 T2 :
  normalizeForHash T1 = normalizeForHash T2 <-> CosmeticVariant T1 T2.
Proof.
  split.
  - intros E. apply cosmetic_trans with (normalizeForHash T1).
    + apply cosmetic_normalizeForHash.
    + rewrite E. apply cosmetic_sym, cosmetic_normalizeForHash.
  - apply normalizeForHash_cosmetic.
Qed.

(** X4.  For texts of code units below U+0100, the canonical text is
    empty exactly for a text that is empty or consists of white space
    only; every other such text keeps at least one code unit, and no such
    text grows. *)
Theorem normalizeForHash_empty_iff_blank text :
  (normalizeForHash text = [] <-> whitespaceOnly text = true)
  /\ List.length (normalizeForHash text) <= List.length text.
Proof.
  split.
  - rewrite normalizeForHash_canonical, canonical_nil_iff.
    now rewrite whitespaceOnly_toLowerCase.
  - rewrite normalizeForHash_canonical.
    unfold toLowerCase. rewrite <- (length_map toLowerChar text).
    generalize (map toLowerChar text). intros s.
    assert (H : forall st,
               List.length (canonical st s)
               <= List.length s + match st with InGap => 1 | _ => 0 end).
    { induction s as [|c s IH]; intros st; simpl; [destruct st; lia|].
      destruct (isWhiteSpace c).
      - specialize (IH (afterWhiteSpace st)).
        destruct st; simpl in *; lia.
      - specialize (IH InWord). destruct st; simpl in *; lia. }
    specialize (H AtStart). simpl in H. lia.
Qed.

(** ** The digest is 64 hex digits *)

Lemma compress_length h block :
  List.length h = 8 -> List.length (SHA256.compress h block) = 8.
Proof.
  intros H. unfold SHA256.compress.
  rewrite length_map, length_combine, H. reflexivity.
Qed.

Lemma fold_compress_length blocks :
  forall h, List.length h = 8 ->
            List.length (fold_left SHA256.compress blocks h) = 8.
Proof.
  induction blocks as [|b blocks IH]; intros h H; simpl; [exact H|].
  apply IH, compress_length, H.
Qed.

Lemma bigEndian_bytes n x :
  List.length (SHA256.bigEndian n x) = n
  /\ Forall (fun b => (b < 256)%N) (SHA256.bigEndian n x).
Proof.
  induction n as [|n [IH1 IH2]]; simpl; [split; [reflexivity | constructor]|].
  split; [now rewrite IH1|].
  constructor; [apply N.mod_lt; discriminate | exact IH2].
Qed.

Lemma digest_bytes msg :
  List.length (SHA256.digest msg) = 32
  /\ Forall (fun b => (b < 256)%N) (SHA256.digest msg).
Proof.
  unfold SHA256.digest.
  pose proof (fold_compress_length
                (SHA256.blocks
                   (List.length (SHA256.toWords (SHA256.pad msg)))
                   (SHA256.toWords (SHA256.pad msg)))
                SHA256.initialHash eq_refl) as H.
  destruct (fold_left _ _ _) as [|a [|b [|c [|d [|e [|f [|g [|h [|]]]]]]]]];
    try discriminate H.
  cbn [flat_map]. rewrite !app_nil_r, !length_app.
  split.
  - now rewrite !(proj1 (bigEndian_bytes 4 _)).
  - repeat (apply Forall_app; split); apply bigEndian_bytes.
Qed.

Lemma hexDigit_lower_hex d : (d < 16)%N -> isLowerHex (hexDigit d) = true.
Proof.
  intros H.
  assert (A : forallb (fun k => isLowerHex (hexDigit (N.of_nat k))) (seq 0 16)
              = true) by reflexivity.
  rewrite forallb_forall in A.
  specialize (A (N.to_nat d)). rewrite N2Nat.id in A.
  apply A, in_seq. lia.
Qed.

Lemma byteToHex_lower_hex b :
  (b < 256)%N ->
  List.length (byteToHex b) = 2 /\ forallb isLowerHex (byteToHex b) = true.
Proof.
  intros H. split; [reflexivity|]. unfold byteToHex. cbn [forallb].
  rewrite !hexDigit_lower_hex; [reflexivity | |].
  - apply N.mod_lt. discriminate.
  - apply N.Div0.div_lt_upper_bound. exact H.
Qed.

Lemma hex_of_bytes bs :
  Forall (fun b => (b < 256)%N) bs ->
  List.length (flat_map byteToHex bs) = 2 * List.length bs
  /\ forallb isLowerHex (flat_map byteToHex bs) = true.
Proof.
  induction 1 as [|b bs Hb _ [IH1 IH2]]; [split; reflexivity|].
  destruct (byteToHex_lower_hex b Hb) as [L F].
  cbn [flat_map]. rewrite length_app, forallb_app, L, F, IH1, IH2.
  split; [simpl; lia | reflexivity].
Qed.

(** X5.  For every text, [sha256] returns exactly 64 code units, each one
    of the digits 0-9 or the lower-case letters a-f: a fixed-length hex
    string, two digits per byte of the digest, with the leading zero
    kept. *)
Theorem sha256_is_64_hex_digits text :
  List.length (sha256 text) = 64
  /\ forallb isLowerHex (sha256 text) = true.
Proof.
  unfold sha256.
  destruct (digest_bytes (utf8Encode text)) as [L B].
  destruct (hex_of_bytes _ B) as [H1 H2].
  split; [rewrite H1, L; reflexivity | exact H2].
Qed.

(** * Further properties of the home page *)

Lemma trimStart_nil_iff s : trimStart s = [] <-> whitespaceOnly s = true.
Proof.
  induction s as [|c s IH]; simpl; [tauto|].
  destruct (isWhiteSpace c); simpl; [exact IH|].
  split; discriminate.
Qed.

Lemma trimEnd_nil_iff s : trimEnd s = [] <-> whitespaceOnly s = true.
Proof.
  induction s as [|c s IH]; simpl; [tauto|].
  destruct (trimEnd s) as [|d r].
  - destruct (isWhiteSpace c); simpl; [exact IH|].
    split; discriminate.
  - split; [discriminate|]. intros H. apply andb_prop in H.
    destruct H as [_ H]. apply IH in H. discriminate H.
Qed.

Lemma whitespaceOnly_trimStart s :
  whitespaceOnly (trimStart s) = whitespaceOnly s.
Proof.
  induction s as [|c s IH]; simpl; [reflexivity|].
  destruct (isWhiteSpace c) eqn:W; simpl; [exact IH | now rewrite W].
Qed.

(** The trimmed text is empty exactly for a blank text. *)
Lemma truthy_trim s : truthy (trim s) = negb (whitespaceOnly s).
Proof.
  unfold trim. rewrite <- whitespaceOnly_trimStart.
  destruct (whitespaceOnly (trimStart s)) eqn:B.
  - apply trimEnd_nil_iff in B. now rewrite B.
  - destruct (trimEnd (trimStart s)) eqn:E; [|reflexivity].
    apply trimEnd_nil_iff in E. congruence.
Qed.

(** X6.  [handleAnalyze] sends a request exactly when there is something
    to analyse.  With a message that is empty or white space only and no
    image it sends nothing, writes no history row, clears the result and
    shows "Paste a message or upload an image first."; in every other case
    it sends exactly one request. *)
Theorem handleAnalyze_blank_input_guard reply st w :
  if whitespaceOnly (message st) && negb (isSome (imageFile st))
  then handleAnalyze reply st w
       = (withOutcome st None
            (str "Paste a message or upload an image first.") (loading st),
          w)
  else exists request,
         requests (snd (handleAnalyze reply st w)) = requests w ++ [request].
Proof.
  unfold handleAnalyze. rewrite truthy_trim, negb_involutive.
  destruct (whitespaceOnly (message st) && negb (isSome (imageFile st)));
    [reflexivity|].
  eexists. destruct reply; reflexivity.
Qed.

(** X7.  An analysis that does not come back with an answer never leaves
    a result on the page and never writes a history row: whenever the
    backend is unreachable or rejects the request, or the input is blank,
    the result is cleared, the stored history is what it was, and an
    error text is shown. *)
Theorem handleAnalyze_failure_leaves_no_result reply st w :
  (forall body, reply <> AnalyzeAnswered body) ->
  result (fst (handleAnalyze reply st w)) = None
  /\ scamshield_history (snd (handleAnalyze reply st w))
     = scamshield_history w
  /\ truthy (error (fst (handleAnalyze reply st w))) = true.
Proof.
  intros H. unfold handleAnalyze, afterError.
  destruct (_ && _); [repeat split|].
  destruct reply as [m|d|body]; [| |now destruct (H body)].
  - simpl. destruct (negb _); repeat split.
  - simpl. destruct (negb _); repeat split.
Qed.

Lemma handleAnalyze_failure_leaves_no_result_witness :
  let st := handleMessageChange (str "You won a prize") initialHome in
  let reply := AnalyzeThrew (str "Failed to fetch") in
  let run := handleAnalyze reply st (freshWorld 0 0) in
  (forall body, reply <> AnalyzeAnswered body)
  /\ result (fst run) = None
  /\ scamshield_history (snd run) = []
  /\ error (fst run) = cannotReachBackend.
Proof.
  intros st reply run.
  assert (H : forall body, reply <> AnalyzeAnswered body)
    by (intros body; discriminate).
  destruct (handleAnalyze_failure_leaves_no_result reply st (freshWorld 0 0) H)
    as (H1 & H2 & _).
  split; [exact H|]. split; [exact H1|]. split; [exact H2 | reflexivity].
Defined.

(** ** The store path *)

(** X9.  Two stored reports of the same category whose non-empty
    messages, of code units below U+0100, are cosmetic variants of each
    other (letters changed one for one between capital and small, white
    space rearranged) send the very same request to the backend: the same
    [message_hash] and the same category, whatever else differs between
    the two sessions. *)
Theorem store_path_same_request_for_cosmetic_variants
    reply1 reply2 st1 st2 w1 w2 r1 r2 :
  result st1 = Some r1 -> result st2 = Some r2 ->
  category r1 = category r2 ->
  truthy (message st1) = true -> truthy (message st2) = true ->
  CosmeticVariant (message st1) (message st2) ->
  exists request,
    requests (snd (handleStoreOnBlockchain reply1 st1 w1))
    = requests w1 ++ [request]
    /\ requests (snd (handleStoreOnBlockchain reply2 st2 w2))
       = requests w2 ++ [request].
Proof.
  intros R1 R2 C T1 T2 V.
  rewrite !handleStoreOnBlockchain_run, R1, R2. cbn [requests].
  unfold rawInputOf, orElse. rewrite T1, T2, C.
  rewrite (normalizeForHash_cosmetic _ _ V).
  eexists. split; reflexivity.
Qed.

Lemma store_path_same_request_for_cosmetic_variants_witness :
  let r := {| probability := 0.9%float; category := str "bank scam";
              red_flags := []; highlighted_phrases := Some [];
              psychology_explainer := None; advice := str "Call your bank.";
              extracted_text := None |} in
  let st1 := {| message := str "OTP now "; imageFile := None;
                imagePreview := None; result := Some r;
                loading := false; error := [] |} in
  let st2 := {| message := str "otp now"; imageFile := None;
                imagePreview := None; result := Some r;
                loading := false; error := [] |} in
  CosmeticVariant (message st1) (message st2)
  /\ exists request,
       requests (snd (handleStoreOnBlockchain StoreAccepted st1
                        (freshWorld 0 0))) = [request]
       /\ requests (snd (handleStoreOnBlockchain StoreUnreachable st2
                           (freshWorld 9 9))) = [request].
Proof.
  intros r st1 st2.
  assert (V : CosmeticVariant (message st1) (message st2)).
  { apply cosmetic_iff_same_canonical. reflexivity. }
  split; [exact V|].
  exact (store_path_same_request_for_cosmetic_variants
           StoreAccepted StoreUnreachable st1 st2
           (freshWorld 0 0) (freshWorld 9 9) r r
           eq_refl eq_refl eq_refl eq_refl eq_refl V).
Defined.



(** ** Sessions *)

Lemma handleAnalyze_keeps_inputs reply st w :
  message (fst (handleAnalyze reply st w)) = message st
  /\ imageFile (fst (handleAnalyze reply st w)) = imageFile st.
Proof.
  unfold handleAnalyze, afterError.
  destruct (_ && _); [split; reflexivity|].
  destruct reply as [m|d|body]; simpl;
    try destruct (negb _); split; reflexivity.
Qed.

Lemma handleAnalyze_history_bound reply st w :
  List.length (scamshield_history w) <= 5 ->
  List.length (scamshield_history (snd (handleAnalyze reply st w))) <= 5.
Proof.
  intros H. unfold handleAnalyze, afterError.
  destruct (_ && _); [exact H|].
  destruct reply as [m|d|body]; simpl; try exact H.
  destruct (scamshield_history w) as [|a [|b [|c [|d l]]]]; simpl; lia.
Qed.

Lemma homeStep_invariant sw e :
  (message (fst sw) = [] \/ imageFile (fst sw) = None)
  /\ List.length (scamshield_history (snd sw)) <= 5 ->
  (message (fst (homeStep sw e)) = []
   \/ imageFile (fst (homeStep sw e)) = None)
  /\ List.length (scamshield_history (snd (homeStep sw e))) <= 5.
Proof.
  destruct sw as [st w]. intros [X B]. simpl in X, B.
  destruct e as [v|f|qr|reply|reply]; simpl.
  - split; [now right | exact B].
  - split; [now left | exact B].
  - unfold imageOnload. destruct qr as [data|]; [|now split].
    destruct (truthy data); [|now split].
    split; [now right | exact B].
  - destruct (handleAnalyze_keeps_inputs reply st w) as [-> ->].
    split; [exact X | now apply handleAnalyze_history_bound].
  - split; [exact X|]. rewrite handleStoreOnBlockchain_run.
    destruct (result st); exact B.
Qed.

(** X11.  In every session on the home page, whatever the user does and
    whatever the backend answers, the page never holds a typed message and
    an uploaded image at the same time, and the stored history never grows
    beyond five rows once it has at most five. *)
Theorem homeSession_invariant events w :
  List.length (scamshield_history w) <= 5 ->
  (message (fst (homeSession events w)) = []
   \/ imageFile (fst (homeSession events w)) = None)
  /\ List.length (scamshield_history (snd (homeSession events w))) <= 5.
Proof.
  intros B. unfold homeSession.
  assert (I : (message (fst (initialHome, w)) = []
               \/ imageFile (fst (initialHome, w)) = None)
              /\ List.length (scamshield_history (snd (initialHome, w))) <= 5)
    by (split; [now left | exact B]).
  revert I. generalize (initialHome, w).
  induction events as [|e events IH]; intros sw I; simpl; [exact I|].
  apply IH, homeStep_invariant, I.
Qed.

Lemma homeSession_invariant_witness :
  let body := {| json_probability := 0.9%float;
                 json_category := str "phishing";
                 json_red_flags := None;
                 json_highlighted_phrases := None;
                 json_psychology_explainer := None;
                 json_advice := str "Do not click the link.";
                 json_extracted_text := None |} in
  let events := [ImageChanged (Some {| name := str "scan.png" |});
                 ImageLoaded (Some (str "upi://pay?pa=x"));
                 AnalyzeClicked (AnalyzeAnswered body);
                 StoreClicked StoreAccepted;
                 MessageChanged (str "hello")] in
  List.length (scamshield_history (freshWorld 0 0)) <= 5
  /\ message (fst (homeSession events (freshWorld 0 0))) = str "hello"
  /\ imageFile (fst (homeSession events (freshWorld 0 0))) = None
  /\ List.length
       (scamshield_history (snd (homeSession events (freshWorld 0 0)))) <= 5.
Proof.
  intros body events.
  assert (B : List.length (scamshield_history (freshWorld 0 0)) <= 5)
    by (simpl; lia).
  split; [exact B|]. split; [reflexivity|]. split; [reflexivity|].
  exact (proj2 (homeSession_invariant events (freshWorld 0 0) B)).
Defined.

(** * Further properties of the forward detector *)

Lemma startsWith_app_needle s p q :
  startsWith s (p ++ q) = true -> startsWith s p = true.
Proof.
  revert s. induction p as [|c p IH]; intros s H; [now destruct s|].
  destruct s as [|d s]; simpl in *; [discriminate H|].
  apply andb_prop in H. destruct H as [E H].
  now rewrite E, (IH s H).
Qed.

Lemma includes_app_needle s p q :
  includes s (p ++ q) = true -> includes s p = true.
Proof.
  induction s as [|c s IH]; cbn [includes]; intros H.
  - apply orb_prop in H. destruct H as [H|H]; [|discriminate H].
    now rewrite (startsWith_app_needle [] p q H).
  - apply orb_prop in H. destruct H as [H|H].
    + now rewrite (startsWith_app_needle (c :: s) p q H).
    + rewrite (IH H). apply orb_true_r.
Qed.

Lemma startsWith_includes s p : startsWith s p = true -> includes s p = true.
Proof. intros H. destruct s; cbn [includes]; now rewrite H. Qed.

Lemma includes_cons c s p : includes s p = true -> includes (c :: s) p = true.
Proof. intros H. cbn [includes]. rewrite H. apply orb_true_r. Qed.

Lemma startsWith_app_text s t p :
  startsWith s p = true -> startsWith (s ++ t) p = true.
Proof.
  revert s. induction p as [|c p IH]; intros s H; [now destruct (s ++ t)|].
  destruct s as [|d s]; simpl in *; [discriminate H|].
  apply andb_prop in H. destruct H as [E H].
  now rewrite E, (IH s H).
Qed.

Lemma includes_app_text s t p :
  includes s p = true -> includes (s ++ t) p = true.
Proof.
  induction s as [|c s IH]; intros H.
  - cbn [includes] in H. apply orb_prop in H.
    destruct H as [H|H]; [|discriminate H].
    apply startsWith_includes, (startsWith_app_text [] t p H).
  - cbn [includes] in H. apply orb_prop in H. destruct H as [H|H].
    + apply startsWith_includes, (startsWith_app_text (c :: s) t p H).
    + apply (includes_cons c (s ++ t) p), IH, H.
Qed.

Lemma includes_trimStart s p :
  includes (trimStart s) p = true -> includes s p = true.
Proof.
  induction s as [|c s IH]; simpl trimStart; [trivial|].
  destruct (isWhiteSpace c); [|trivial].
  intros H. apply includes_cons, IH, H.
Qed.

Lemma trimEnd_prefix s : exists t, s = trimEnd s ++ t.
Proof.
  induction s as [|c s [t IH]]; simpl; [now exists []|].
  destruct (trimEnd s) as [|d r].
  - destruct (isWhiteSpace c); [now exists (c :: s) | now exists s].
  - exists t. simpl in *. now rewrite <- IH.
Qed.

Lemma includes_trim s p : includes (trim s) p = true -> includes s p = true.
Proof.
  unfold trim. intros H. apply includes_trimStart.
  destruct (trimEnd_prefix (trimStart s)) as [t E].
  rewrite E. apply includes_app_text, H.
Qed.

(** X12.  The detector has no effect on a message that does not contain
    the word "forwarded" in some letter case: such a message is never
    flagged as a mass forward and its probability is never raised. *)
Theorem forward_detector_needs_the_word message finalResult :
  includes (toLowerCase message) (str "forwarded") = false ->
  whatsappForwardDetector message finalResult = finalResult.
Proof.
  intros H. unfold whatsappForwardDetector.
  destruct (truthy message); [|reflexivity].
  rewrite <- trim_toLowerCase.
  destruct (startsWith _ _ || includes _ _) eqn:P; [|reflexivity].
  apply orb_prop in P. destruct P as [P|P].
  - apply startsWith_includes, includes_trim in P. congruence.
  - apply (includes_app_needle _ (str "forwarded") (str " many times")),
      includes_trim in P. congruence.
Qed.

Lemma forward_detector_needs_the_word_witness :
  let r := {| probability := 0.4%float; category := str "normal message";
              red_flags := []; highlighted_phrases := None;
              psychology_explainer := None; advice := str "Looks fine.";
              extracted_text := None |} in
  includes (toLowerCase (str "Please forward this to mum")) (str "forwarded")
  = false
  /\ whatsappForwardDetector (str "Please forward this to mum") r = r.
Proof.
  intros r.
  assert (H : includes (toLowerCase (str "Please forward this to mum"))
                (str "forwarded") = false) by reflexivity.
  split; [exact H|].
  exact (forward_detector_needs_the_word _ r H).
Defined.

Section Binary64Cap.

Local Open Scope Z_scope.

Lemma notNaN_hasSign f : notNaN f -> exists s, hasSign s f.
Proof. destruct f as [s|s| |s m e]; simpl; try tauto; now exists s. Qed.

Lemma hasSign_notNaN s f : hasSign s f -> notNaN f.
Proof. destruct f; simpl; tauto. Qed.

Lemma is_nan_false_notNaN x : is_nan x = false -> notNaN (Prim2SF x).
Proof.
  unfold is_nan. rewrite eqb_spec. intros H.
  destruct (Prim2SF x); try exact I. discriminate H.
Qed.

Lemma notNaN_is_nan_false x : notNaN (Prim2SF x) -> is_nan x = false.
Proof.
  intros H. destruct (notNaN_hasSign _ H) as [s Hs].
  unfold is_nan. now rewrite eqb_spec, (SFeqb_refl s _ Hs).
Qed.

Lemma binary_round_notNaN s m e : notNaN (binary_round prec emax s m e).
Proof.
  unfold binary_round. destruct (shl_align _ _ _) as [mz ez].
  apply (hasSign_notNaN s), binary_round_aux_sign. lia.
Qed.

(** Adding a finite value to a value that is not NaN never gives NaN. *)
Lemma SFadd_finite_notNaN x s m e :
  notNaN x -> notNaN (SF64add x (S754_finite s m e)).
Proof.
  destruct x as [sx|sx| |sx mx ex]; simpl; try tauto; intros _.
  unfold binary_normalize.
  destruct (cond_Zopp sx _ + cond_Zopp s _);
    [exact I | apply binary_round_notNaN | apply binary_round_notNaN].
Qed.

Lemma SFltb_SFleb x y : SFltb x y = true -> SFleb x y = true.
Proof.
  unfold SFltb, SFleb. destruct (SFcompare x y) as [[| |]|]; congruence.
Qed.

(** [Math.min] with 0.99 caps every value that is not NaN. *)
Lemma Math_min_cap x :
  is_nan x = false -> (Math_min x 0.99 <=? 0.99)%float = true.
Proof.
  intros N. unfold Math_min. rewrite N.
  change (is_nan 0.99%float) with false. cbv [orb].
  destruct (x <? 0.99)%float eqn:L.
  - rewrite ltb_spec in L. rewrite leb_spec. now apply SFltb_SFleb.
  - destruct (0.99 <? x)%float; [reflexivity|].
    destruct (classify x) eqn:C; try reflexivity.
    rewrite classify_spec in C. rewrite leb_spec.
    destruct (Prim2SF x) as [s|s| |s m e];
      cbn [SF64classify SFclassify] in C.
    + reflexivity.
    + destruct s; discriminate C.
    + discriminate C.
    + destruct s; destruct (Z.pos (digits2_pos m) =? prec); discriminate C.
Qed.

End Binary64Cap.

(** X13.  Whenever the detector changes a result whose probability is a
    number, the probability it publishes is at most 0.99, however large
    the backend's value was. *)
Theorem forward_boost_is_capped message finalResult :
  is_nan (probability finalResult) = false ->
  whatsappForwardDetector message finalResult = finalResult
  \/ (probability (whatsappForwardDetector message finalResult) <=? 0.99)%float
     = true.
Proof.
  intros N. unfold whatsappForwardDetector.
  destruct (truthy message); [|now left].
  destruct (_ || _); [|now left].
  destruct (negb _); [|now left].
  right. cbn [probability]. apply Math_min_cap, notNaN_is_nan_false.
  rewrite add_spec.
  change (Prim2SF 0.15%float)
    with (S754_finite false 5404319552844595 (-55)).
  apply SFadd_finite_notNaN, is_nan_false_notNaN, N.
Qed.

Lemma forward_boost_is_capped_witness :
  let r := {| probability := 1%float; category := str "lottery scam";
              red_flags := []; highlighted_phrases := None;
              psychology_explainer := None; advice := str "Ignore it.";
              extracted_text := None |} in
  let r' := whatsappForwardDetector (str "FORWARDED: you won") r in
  is_nan (probability r) = false
  /\ probability r' = 0.99%float
  /\ (r' = r \/ (probability r' <=? 0.99)%float = true).
Proof.
  intros r r'.
  assert (N : is_nan (probability r) = false) by reflexivity.
  split; [exact N|]. split; [reflexivity|].
  exact (forward_boost_is_capped (str "FORWARDED: you won") r N).
Defined.

(** * The threat meter of the result card *)

Section Binary64Order.

Local Open Scope Z_scope.

(** Against a positive finite value, "below" is the negation of "at
    least" for everything but NaN. *)
Lemma SFltb_negb_SFleb x m e :
  notNaN x ->
  SFltb x (S754_finite false m e) = negb (SFleb (S754_finite false m e) x).
Proof.
  destruct x as [s|s| |s m' e']; cbn [notNaN]; try tauto; intros _;
    unfold SFltb, SFleb; cbn [SFcompare]; try reflexivity;
    try (now destruct s).
  destruct s; [reflexivity|].
  - rewrite (Z.compare_antisym e' e).
    destruct (e' ?= e); cbn [CompOpp]; try reflexivity.
    change (PosDef.Pos.compare_cont Eq m m') with (Pos.compare m m').
    change (PosDef.Pos.compare_cont Eq m' m) with (Pos.compare m' m).
    rewrite (Pos.compare_antisym m' m).
    now destruct (Pos.compare m' m).
Qed.

(** "At least" a positive finite value implies "at least" every smaller
    one. *)
Lemma SFleb_smaller x m1 e1 m2 e2 :
  e1 < e2 \/ (e1 = e2 /\ (m1 <= m2)%positive) ->
  SFleb (S754_finite false m2 e2) x = true ->
  SFleb (S754_finite false m1 e1) x = true.
Proof.
  intros O. destruct x as [s|s| |s m e]; unfold SFleb; cbn [SFcompare];
    try discriminate; try (destruct s; trivial; fail).
  destruct s; [discriminate|].
  rewrite !Pos.compare_cont_spec. cbn [Pos.switch_Eq].
  destruct (Z.compare_spec e2 e), (Z.compare_spec e1 e);
    try discriminate; try reflexivity; try lia; subst;
    destruct (Pos.compare_spec m2 m), (Pos.compare_spec m1 m);
    cbn; try discriminate; try reflexivity; lia.
Qed.

End Binary64Order.

Lemma lt_negb_ge x c m e :
  is_nan x = false -> Prim2SF c = S754_finite false m e ->
  ThreatMeter.lt x c = negb (ge x c).
Proof.
  intros N C. unfold ThreatMeter.lt, ge.
  rewrite ltb_spec, leb_spec, C.
  apply SFltb_negb_SFleb, is_nan_false_notNaN, N.
Qed.

Lemma ge_76_50 x : ge x 76%float = true -> ge x 50%float = true.
Proof.
  unfold ge. rewrite !leb_spec.
  apply (SFleb_smaller _ 7036874417766400 (-47) 5348024557502464 (-46)).
  left. lia.
Qed.

Lemma ge_50_46 x : ge x 50%float = true -> ge x 46%float = true.
Proof.
  unfold ge. rewrite !leb_spec.
  apply (SFleb_smaller _ 6473924464345088 (-47) 7036874417766400 (-47)).
  right. split; [reflexivity | lia].
Qed.

Lemma ge_50_26 x : ge x 50%float = true -> ge x 26%float = true.
Proof.
  unfold ge. rewrite !leb_spec.
  apply (SFleb_smaller _ 7318349394477056 (-48) 7036874417766400 (-47)).
  left. lia.
Qed.

(** X14.  When the percentage is a number, the threat meter agrees with
    the verdict: the card says scam exactly when the label is HIGH or
    CRITICAL, exactly when the label's background is not green; the label
    is CRITICAL exactly when its background is red, and then the bar is
    red too; a green bar always goes with the safe verdict. *)
Theorem threat_meter_agrees_with_verdict result :
  is_nan (ResultCard.pct result) = false ->
  (ResultCard.isScam result = true
   <-> ThreatMeter.level result = ThreatMeter.HIGH
       \/ ThreatMeter.level result = ThreatMeter.CRITICAL)
  /\ (ResultCard.isScam result = true
      <-> ThreatMeter.badgeColour result <> ThreatMeter.neo_green)
  /\ (ThreatMeter.level result = ThreatMeter.CRITICAL
      <-> ThreatMeter.badgeColour result = ThreatMeter.neo_red)
  /\ (ThreatMeter.badgeColour result = ThreatMeter.neo_red
      <-> ThreatMeter.threatBarColor result = ThreatMeter.neo_red)
  /\ (ThreatMeter.threatBarColor result = ThreatMeter.neo_green ->
      ResultCard.isScam result = false).
Proof.
  intros N.
  unfold ThreatMeter.level, ThreatMeter.badgeColour,
    ThreatMeter.threatBarColor, ResultCard.isScam.
  rewrite (lt_negb_ge _ 26%float _ _ N eq_refl),
    (lt_negb_ge _ 50%float _ _ N eq_refl),
    (lt_negb_ge _ 76%float _ _ N eq_refl).
  pose proof (ge_76_50 (ResultCard.pct result)) as H1.
  pose proof (ge_50_46 (ResultCard.pct result)) as H2.
  pose proof (ge_50_26 (ResultCard.pct result)) as H3.
  destruct (ge (ResultCard.pct result) 76%float);
    destruct (ge (ResultCard.pct result) 50%float);
    destruct (ge (ResultCard.pct result) 46%float);
    destruct (ge (ResultCard.pct result) 26%float);
    try (discriminate (H1 eq_refl)); try (discriminate (H2 eq_refl));
    try (discriminate (H3 eq_refl)); cbn [negb];
    repeat split; try discriminate; try tauto; try congruence;
    try (intros [H|H]; discriminate H).
Qed.

Lemma threat_meter_agrees_with_verdict_witness :
  let r := {| probability := 0.47%float; category := str "job scam";
              red_flags := []; highlighted_phrases := None;
              psychology_explainer := None; advice := str "Be careful.";
              extracted_text := None |} in
  is_nan (ResultCard.pct r) = false
  /\ ThreatMeter.threatBarColor r = ThreatMeter.neo_orange
  /\ ThreatMeter.level r = ThreatMeter.MODERATE
  /\ (ResultCard.isScam r = true
      <-> ThreatMeter.level r = ThreatMeter.HIGH
          \/ ThreatMeter.level r = ThreatMeter.CRITICAL).
Proof.
  intros r.
  assert (N : is_nan (ResultCard.pct r) = false) by reflexivity.
  split; [exact N|]. split; [reflexivity|]. split; [reflexivity|].
  exact (proj1 (threat_meter_agrees_with_verdict r N)).
Defined.

Lemma is_nan_true_Prim2SF x : is_nan x = true -> Prim2SF x = S754_nan.
Proof.
  intros H. destruct (Prim2SF x) as [s|s| |s m e] eqn:E; [| |reflexivity|];
    exfalso;
    assert (N : notNaN (Prim2SF x)) by (rewrite E; exact I);
    apply notNaN_is_nan_false in N; congruence.
Qed.

Lemma pct_of_nan result :
  is_nan (probability result) = true ->
  Prim2SF (ResultCard.pct result) = S754_nan.
Proof.
  intros H. apply is_nan_true_Prim2SF in H.
  assert (M : Prim2SF (probability result * 100)%float = S754_nan)
    by (rewrite mul_spec, H; reflexivity).
  unfold ResultCard.pct, Math_round. now rewrite M.
Qed.

(** X15.  When the probability is not a number, as JavaScript computes
    with a probability the answer does not carry, the card shows the safe
    verdict and a green bar and background, and with them the label
    CRITICAL; the history row of such a scan is shown as safe. *)
Theorem result_card_without_a_number result item :
  is_nan (probability result) = true ->
  LocalHistory.probability item = probability result ->
  ResultCard.isScam result = false
  /\ ThreatMeter.level result = ThreatMeter.CRITICAL
  /\ ThreatMeter.badgeColour result = ThreatMeter.neo_green
  /\ ThreatMeter.threatBarColor result = ThreatMeter.neo_green
  /\ LocalHistory.isScam item = false.
Proof.
  intros N E.
  pose proof (pct_of_nan result N) as P.
  assert (G : forall c, ge (ResultCard.pct result) c = false).
  { intros c. unfold ge. rewrite leb_spec, P. unfold SFleb.
    now destruct (Prim2SF c). }
  assert (L : forall c, ThreatMeter.lt (ResultCard.pct result) c = false).
  { intros c. unfold ThreatMeter.lt. now rewrite ltb_spec, P. }
  unfold ResultCard.isScam, ThreatMeter.level, ThreatMeter.badgeColour,
    ThreatMeter.threatBarColor, LocalHistory.isScam.
  rewrite !G, !L, E. repeat split.
  unfold ge. rewrite leb_spec, (is_nan_true_Prim2SF _ N). reflexivity.
Qed.

Lemma result_card_without_a_number_witness :
  let r := {| probability := nan; category := str "phishing";
              red_flags := []; highlighted_phrases := None;
              psychology_explainer := None; advice := str "Be careful.";
              extracted_text := None |} in
  let item := {| LocalHistory.timestamp := 0;
                 LocalHistory.message := str "hello";
                 LocalHistory.category := str "phishing";
                 LocalHistory.probability := nan |} in
  is_nan (probability r) = true
  /\ ResultCard.isScam r = false
  /\ ThreatMeter.level r = ThreatMeter.CRITICAL.
Proof.
  intros r item.
  assert (N : is_nan (probability r) = true) by reflexivity.
  destruct (result_card_without_a_number r item N eq_refl) as (H1 & H2 & _).
  split; [exact N|]. split; [exact H1 | exact H2].
Defined.

(** * The highlighted message *)

Example HighlightedMessage_demo :
  HighlightedMessage (str "Share your OTP now, otp expires")
    [{| phrase := str "otp"; danger := high |};
     {| phrase := str "expires"; danger := medium |}]
  = [Plain (str "Share your "); Mark high (str "OTP");
     Plain (str " now, "); Mark high (str "otp"); Plain (str " ");
     Mark medium (str "expires"); Plain []].
Proof. reflexivity. Qed.

Lemma splitLoop_concat phrases s :
  forall skip pending,
    (skip <> 0 -> pending = []) ->
    concat (splitLoop phrases s skip pending) = rev pending ++ skipn skip s.
Proof.
  induction s as [|c s IH]; intros skip pending P.
  - destruct skip; simpl; now rewrite ?app_nil_r.
  - destruct skip as [|k]; cbn [splitLoop skipn].
    + destruct (matchAt phrases (c :: s)) as [[|k]|].
      * destruct pending as [|d pending].
        -- now rewrite IH.
        -- cbn [concat]. rewrite IH by congruence. cbn [app rev skipn].
           now rewrite <- app_assoc.
      * cbn [concat]. rewrite IH by congruence. f_equal.
        cbn [firstn app rev]. f_equal. apply firstn_skipn.
      * rewrite IH by congruence. cbn [rev skipn].
        now rewrite <- app_assoc.
    + rewrite (P (Nat.neq_succ_0 k)). now rewrite IH.
Qed.

(** X16.  The highlighting never loses, adds or alters text: the parts it
    renders, marked or plain, read in order are exactly the message, for
    every message and every list of phrases. *)
Theorem HighlightedMessage_keeps_the_text text phrases :
  flat_map spanText (HighlightedMessage text phrases) = text.
Proof.
  unfold HighlightedMessage.
  destruct phrases as [|p rest]; [apply app_nil_r|].
  rewrite flat_map_concat_map, map_map.
  assert (E : forall parts,
            concat (map (fun part => spanText (renderPart (p :: rest) part))
                      parts) = concat parts).
  { induction parts as [|a parts IH]; [reflexivity|].
    cbn [map concat]. rewrite IH. f_equal.
    unfold renderPart. now destruct (findPhrase _ a). }
  rewrite E. unfold splitByPhrases.
  destruct text as [|c text].
  - now destruct (matchAt _ []).
  - apply (splitLoop_concat _ _ 0 []). congruence.
Qed.

Lemma strictEq_eq s t : strictEq s t = true <-> s = t.
Proof.
  revert t. induction s as [|c s IH]; intros [|d t]; simpl;
    try (split; [discriminate | discriminate]); [tauto|].
  rewrite andb_true_iff, Ascii.eqb_eq, IH.
  split; [intros [-> ->]; reflexivity | intros [= -> ->]; tauto].
Qed.

Lemma matchAt_Some phrases s n :
  matchAt phrases s = Some n ->
  exists p, In p phrases /\ matchesPhrase (phrase p) s = true
            /\ List.length (phrase p) = n.
Proof.
  induction phrases as [|q rest IH]; simpl; [discriminate|].
  destruct (matchesPhrase (phrase q) s) eqn:M.
  - intros [= <-]. exists q. tauto.
  - intros H. destruct (IH H) as (p & I & R). exists p. tauto.
Qed.

Lemma matchAt_None phrases s p :
  matchAt phrases s = None -> In p phrases ->
  matchesPhrase (phrase p) s = false.
Proof.
  induction phrases as [|q rest IH]; simpl; [tauto|].
  destruct (matchesPhrase (phrase q) s) eqn:M; [discriminate|].
  intros H [<-|I]; [exact M | now apply IH].
Qed.

Lemma matchesPhrase_firstn p :
  forall s, matchesPhrase p s = true ->
            toLowerCase (firstn (List.length p) s) = toLowerCase p.
Proof.
  induction p as [|a p IH]; intros [|c s] H; simpl in *;
    try reflexivity; try discriminate.
  apply andb_prop in H. destruct H as [E H].
  apply Ascii.eqb_eq in E. now rewrite E, (IH s H).
Qed.

Lemma matchesPhrase_of_lower p :
  forall q r, toLowerCase p = toLowerCase q ->
              matchesPhrase p (q ++ r) = true.
Proof.
  induction p as [|a p IH]; intros [|c q] r H; simpl in *;
    try reflexivity; try discriminate.
  injection H as E H. unfold sameLetter.
  now rewrite E, Ascii.eqb_refl, (IH q r H).
Qed.

Lemma matchesPhrase_nil p : matchesPhrase p [] = true -> p = [].
Proof. destruct p; [reflexivity | discriminate]. Qed.

(** Where a phrase occurs in what is left to read, the loop puts out a
    part that is a phrase up to letter case. *)
Lemma splitLoop_finds phrases s :
  (forall p, In p phrases -> phrase p <> []) ->
  forall skip pending,
    phraseOccurs phrases (skipn skip s) ->
    exists part p,
      In part (splitLoop phrases s skip pending)
      /\ In p phrases /\ toLowerCase (phrase p) = toLowerCase part.
Proof.
  intros NE. induction s as [|c s IH]; intros skip pending O.
  - destruct O as (p & before & after & I & E & M).
    rewrite skipn_nil in E. symmetry in E.
    apply app_eq_nil in E. destruct E as [_ ->].
    apply matchesPhrase_nil in M. now destruct (NE p I).
  - destruct skip as [|k]; cbn [splitLoop skipn] in *.
    + destruct (matchAt phrases (c :: s)) as [[|k]|] eqn:A.
      * apply matchAt_Some in A. destruct A as (p & I & _ & L).
        destruct (NE p I). now destruct (phrase p).
      * pose proof (matchAt_Some _ _ _ A) as (p & I & M & L).
        exists (firstn (S k) (c :: s)), p.
        split; [right; now left|]. split; [exact I|].
        rewrite <- L. symmetry. now apply matchesPhrase_firstn.
      * destruct O as (p & before & after & I & E & M).
        destruct before as [|b before].
        -- simpl in E. subst after.
           rewrite (matchAt_None _ _ _ A I) in M. discriminate M.
        -- injection E as _ E.
           destruct (IH 0 (c :: pending)) as (part & q & H).
           { exists p, before, after. tauto. }
           exists part, q. exact H.
    + destruct (IH k [] O) as (part & q & H). exists part, q. exact H.
Qed.

Lemma findPhrase_Some phrases part p :
  findPhrase phrases part = Some p ->
  In p phrases /\ toLowerCase (phrase p) = toLowerCase part.
Proof.
  intros H. apply find_some in H. now rewrite strictEq_eq in H.
Qed.

Lemma findPhrase_exists phrases part p :
  In p phrases -> toLowerCase (phrase p) = toLowerCase part ->
  exists q, findPhrase phrases part = Some q.
Proof.
  intros I E. destruct (findPhrase phrases part) as [q|] eqn:F;
    [now exists q|].
  pose proof (find_none _ _ F p I) as N. cbv beta in N.
  apply strictEq_eq in E. congruence.
Qed.

Lemma splitByPhrases_concat phrases text :
  concat (splitByPhrases phrases text) = text.
Proof.
  unfold splitByPhrases. destruct text as [|c text].
  - now destruct (matchAt phrases []).
  - apply (splitLoop_concat _ _ 0 []). congruence.
Qed.

Lemma marks_are_phrases phrases text level part :
  In (Mark level part) (HighlightedMessage text phrases) ->
  In part (splitByPhrases phrases text)
  /\ exists p, findPhrase phrases part = Some p /\ danger p = level.
Proof.
  unfold HighlightedMessage. destruct phrases as [|p0 rest].
  - intros [H|[]]. discriminate H.
  - intros H. apply in_map_iff in H. destruct H as (part0 & R & I).
    unfold renderPart in R.
    destruct (findPhrase (p0 :: rest) part0) as [p|] eqn:F;
      [|discriminate R].
    injection R as <- <-. split; [exact I|]. now exists p.
Qed.

(** X17.  For a message and phrases of code units below U+0100, where
    the flag [i] of the regular expression and [toLowerCase] identify the
    same letters: with phrases that are not empty, something is marked if
    and only if some phrase occurs in the message in some letter case; and
    every marked part is such an occurrence, marked with the danger of the
    first phrase of the list that equals it up to letter case. *)
Theorem HighlightedMessage_marks_iff_phrase_occurs text phrases :
  (forall p, In p phrases -> phrase p <> []) ->
  (someMark (HighlightedMessage text phrases) <-> phraseOccurs phrases text)
  /\ forall level part,
       In (Mark level part) (HighlightedMessage text phrases) ->
       exists p before after,
         findPhrase phrases part = Some p /\ danger p = level
         /\ toLowerCase part = toLowerCase (phrase p)
         /\ text = before ++ part ++ after.
Proof.
  intros NE.
  assert (M : forall level part,
            In (Mark level part) (HighlightedMessage text phrases) ->
            exists p before after,
              findPhrase phrases part = Some p /\ danger p = level
              /\ toLowerCase part = toLowerCase (phrase p)
              /\ text = before ++ part ++ after).
  { intros level part H.
    destruct (marks_are_phrases _ _ _ _ H) as (I & p & F & D).
    destruct (findPhrase_Some _ _ _ F) as [_ E].
    apply in_split in I. destruct I as (l1 & l2 & S).
    exists p, (concat l1), (concat l2).
    split; [exact F|]. split; [exact D|]. split; [now symmetry|].
    rewrite <- (splitByPhrases_concat phrases text), S.
    now rewrite concat_app. }
  split; [|exact M]. split.
  - intros (level & part & H).
    destruct (M level part H) as (p & before & after & F & _ & E & T).
    destruct (findPhrase_Some _ _ _ F) as [I _].
    exists p, before, (part ++ after). split; [exact I|].
    split; [exact T|]. apply matchesPhrase_of_lower. now symmetry.
  - intros O. unfold HighlightedMessage.
    destruct phrases as [|p0 rest];
      [destruct O as (p & _ & _ & [] & _)|].
    assert (P : exists part p,
               In part (splitByPhrases (p0 :: rest) text)
               /\ In p (p0 :: rest)
               /\ toLowerCase (phrase p) = toLowerCase part).
    { unfold splitByPhrases. destruct text as [|c text].
      - destruct O as (p & before & after & I & E & Mt).
        symmetry in E. apply app_eq_nil in E. destruct E as [_ ->].
        apply matchesPhrase_nil in Mt. now destruct (NE p I).
      - apply splitLoop_finds; assumption. }
    destruct P as (part & p & I & Ip & E).
    destruct (findPhrase_exists _ _ _ Ip E) as [q F].
    exists (danger q), part. apply in_map_iff. exists part.
    split; [|exact I]. unfold renderPart. now rewrite F.
Qed.

Lemma HighlightedMessage_marks_iff_phrase_occurs_witness :
  let phrases := [{| phrase := str "otp"; danger := high |};
                  {| phrase := str "urgent"; danger := medium |}] in
  let text := str "URGENT: share the Otp" in
  (forall p, In p phrases -> phrase p <> [])
  /\ In (Mark medium (str "URGENT")) (HighlightedMessage text phrases)
  /\ (someMark (HighlightedMessage text phrases)
      <-> phraseOccurs phrases text).
Proof.
  intros phrases text.
  assert (NE : forall p, In p phrases -> phrase p <> []).
  { intros p [<-|[<-|[]]]; discriminate. }
  split; [exact NE|]. split; [right; now left|].
  exact (proj1 (HighlightedMessage_marks_iff_phrase_occurs text phrases NE)).
Defined.

(** * Traces of calls to the ledger *)

Module LedgerTraceProofs.

Import ScamLedger LedgerTrace.

Local Open Scope N_scope.

Lemma execute_run s t :
  execute s t
  = ({| scams := scams s ++ stored t |},
     match invocation t with
     | CallAddScamHash h c =>
         [ScamAdded (N.of_nat (List.length (scams s))) h c
            (block_timestamp (block t))]
     | _ => []
     end).
Proof.
  unfold execute, stored. destruct (invocation t) as [h c| |i].
  - now rewrite LedgerProofs.addScamHash_run.
  - rewrite LedgerProofs.getTotalScams_run. simpl.
    rewrite app_nil_r. now destruct s.
  - rewrite app_nil_r.
    destruct (N.ltb_spec i (N.of_nat (List.length (scams s)))) as [L|L].
    + destruct (nth_error (scams s) (N.to_nat i)) as [e|] eqn:E;
        [|apply nth_error_None in E; lia].
      rewrite (LedgerProofs.getScamByIndex_inside i (block t) s e E).
      now destruct s.
    + rewrite (LedgerProofs.getScamByIndex_outside i (block t) s L).
      now destruct s.
Qed.

Lemma executeAll_storage txs :
  forall s, scams (fst (executeAll txs s)) = scams s ++ flat_map stored txs.
Proof.
  induction txs as [|t txs IH]; intros s; simpl; [now rewrite app_nil_r|].
  rewrite execute_run.
  specialize (IH {| scams := scams s ++ stored t |}).
  destruct (executeAll txs _) as [s2 log2]. simpl in *.
  now rewrite IH, <- app_assoc.
Qed.

Lemma executeAll_events txs :
  forall s e,
    In e (snd (executeAll txs s)) ->
    nth_error (scams (fst (executeAll txs s)))
      (N.to_nat (assignedIndex e)) = Some (entryOfEvent e).
Proof.
  induction txs as [|t txs IH]; intros s e; simpl; [tauto|].
  rewrite execute_run.
  pose proof (executeAll_storage txs {| scams := scams s ++ stored t |}) as P.
  specialize (IH {| scams := scams s ++ stored t |} e).
  destruct (executeAll txs _) as [s2 log2]. simpl in *.
  intros H. apply in_app_or in H. destruct H as [H|H]; [|now apply IH].
  unfold stored in P. destruct (invocation t) as [h c| |i]; try contradiction.
  destruct H as [<-|[]]. simpl. rewrite Nat2N.id, P.
  rewrite <- !app_assoc. rewrite nth_error_app2 by lia.
  now rewrite Nat.sub_diag.
Qed.

(** X18.  The ledger is append-only under every trace of calls: whatever
    mix of [addScamHash], [getTotalScams] and [getScamByIndex] calls is
    executed, failing reads included, the entries there were stay first
    and unchanged, every [addScamHash] call succeeds and adds exactly its
    own entry behind them, and nothing else changes the ledger. *)
Theorem ledger_is_append_only txs s :
  scams (fst (executeAll txs s)) = scams s ++ flat_map stored txs
  /\ firstn (List.length (scams s)) (scams (fst (executeAll txs s)))
     = scams s
  /\ forall blk,
       returned (getTotalScams blk (fst (executeAll txs s)))
       = Some (N.of_nat (List.length (scams s))
               + N.of_nat (List.length (flat_map stored txs))).
Proof.
  pose proof (executeAll_storage txs s) as P. split; [exact P|]. split.
  - rewrite P, firstn_app, Nat.sub_diag, firstn_all. apply app_nil_r.
  - intros blk. rewrite LedgerProofs.getTotalScams_run, P, length_app.
    simpl. f_equal. lia.
Qed.

(** X19.  The event log is a faithful index of the ledger: after every
    trace of calls, from every ledger, each [ScamAdded] event emitted on
    the way names an index at which [getScamByIndex] returns exactly the
    hash, category and timestamp of that event. *)
Theorem events_index_the_ledger txs s e blk :
  In e (snd (executeAll txs s)) ->
  getScamByIndex (assignedIndex e) blk (fst (executeAll txs s))
  = Success (hash (entryOfEvent e), category (entryOfEvent e),
             timestamp (entryOfEvent e))
      (fst (executeAll txs s)) [].
Proof.
  intros H. apply LedgerProofs.getScamByIndex_inside.
  now apply executeAll_events.
Qed.

Lemma events_index_the_ledger_witness :
  let blk := {| block_timestamp := 1700000000 |} in
  let txs := [ {| invocation := CallGetScamByIndex 0; block := blk |};
               {| invocation := CallAddScamHash "ab12" "phishing";
                  block := blk |};
               {| invocation := CallGetTotalScams; block := blk |};
               {| invocation := CallAddScamHash "ab12" "bank scam";
                  block := blk |} ] in
  let e := ScamAdded 1 "ab12" "bank scam" 1700000000 in
  In e (snd (executeAll txs deployed))
  /\ returned (getScamByIndex 1 blk (fst (executeAll txs deployed)))
     = Some ("ab12", "bank scam", 1700000000)%string.
Proof.
  intros blk txs e.
  assert (H : In e (snd (executeAll txs deployed))) by (right; now left).
  split; [exact H|].
  exact (f_equal returned (events_index_the_ledger txs deployed e blk H)).
Defined.

Lemma stored_timestamps_sorted txs :
  StronglySorted N.le (map (fun t => block_timestamp (block t)) txs) ->
  StronglySorted N.le (map timestamp (flat_map stored txs))
  /\ forall x, In x (map timestamp (flat_map stored txs)) ->
               In x (map (fun t => block_timestamp (block t)) txs).
Proof.
  induction txs as [|t txs IH]; simpl; intros H.
  - split; [constructor | tauto].
  - apply StronglySorted_inv in H. destruct H as [H F].
    destruct (IH H) as [IH1 IH2].
    unfold stored at 1 3. destruct (invocation t) as [h c| |i]; simpl.
    + split.
      * constructor; [exact IH1|].
        rewrite Forall_forall in *. intros x Hx. apply F, IH2, Hx.
      * intros x [<-|Hx]; [now left | right; now apply IH2].
    + split; [exact IH1 | intros x Hx; right; now apply IH2].
    + split; [exact IH1 | intros x Hx; right; now apply IH2].
Qed.

(** X20.  When the blocks of a trace come with timestamps that never
    decrease, as the blocks of a chain do, the timestamps stored in a
    freshly deployed ledger never decrease from one entry to the next. *)
Theorem ledger_timestamps_never_decrease txs :
  StronglySorted N.le (map (fun t => block_timestamp (block t)) txs) ->
  StronglySorted N.le
    (map timestamp (scams (fst (executeAll txs deployed)))).
Proof.
  intros H. rewrite executeAll_storage. simpl.
  now apply stored_timestamps_sorted.
Qed.

Lemma ledger_timestamps_never_decrease_witness :
  let txs := [ {| invocation := CallAddScamHash "ab12" "phishing";
                  block := {| block_timestamp := 1700000000 |} |};
               {| invocation := CallGetScamByIndex 7;
                  block := {| block_timestamp := 1700000000 |} |};
               {| invocation := CallAddScamHash "cd34" "job scam";
                  block := {| block_timestamp := 1700000012 |} |} ] in
  StronglySorted N.le (map (fun t => block_timestamp (block t)) txs)
  /\ map timestamp (scams (fst (executeAll txs deployed)))
     = [1700000000; 1700000012]
  /\ StronglySorted N.le
       (map timestamp (scams (fst (executeAll txs deployed)))).
Proof.
  intros txs.
  assert (H : StronglySorted N.le
                (map (fun t => block_timestamp (block t)) txs)).
  { repeat constructor; simpl; lia. }
  split; [exact H|]. split; [reflexivity|].
  exact (ledger_timestamps_never_decrease txs H).
Defined.

End LedgerTraceProofs.
